(** * TopSecret: AES-256-CBC encryption of buffers, JSON values and files

    A shallow embedding of [index.js] (class [TopSecret]) together with the
    parts of Node.js the class calls into: [Buffer], [crypto], [fs] and
    [JSON].  Exceptions, the random source, the file system and the console
    are explicit; an instance of the class is a record that the mutating
    members return anew.

    AES-256 (FIPS 197), SHA-256 (FIPS 180-4), UTF-8 encoding, hexadecimal and
    Base64 (RFC 4648) text are written out and run.  UTF-8 decoding and
    [JSON] are taken as given ([Platform]). *)

From Stdlib Require Import NArith ZArith Lia Bool Ascii String Btauto.
From Stdlib Require Import Init.Byte Strings.Byte.
From stdpp Require Import gmap strings list.

Local Open Scope string_scope.
Local Open Scope list_scope.
Local Open Scope nat_scope.

(** ** Bytes *)

Abbreviation Buffer := (list byte).

Definition bits8 : Type :=
  (bool * (bool * (bool * (bool * (bool * (bool * (bool * bool))))))).

Definition xor_bits (x y : bits8) : bits8 :=
  let '(a0, (a1, (a2, (a3, (a4, (a5, (a6, a7))))))) := x in
  let '(b0, (b1, (b2, (b3, (b4, (b5, (b6, b7))))))) := y in
  (xorb a0 b0, (xorb a1 b1, (xorb a2 b2, (xorb a3 b3,
    (xorb a4 b4, (xorb a5 b5, (xorb a6 b6, xorb a7 b7))))))).

(** Bitwise exclusive or of two bytes; the bits of a byte come lowest
    first. *)
Definition byte_xor (a b : byte) : byte :=
  Byte.of_bits (xor_bits (Byte.to_bits a) (Byte.to_bits b)).

(** Exclusive or of two byte sequences, up to the shorter one. *)
Definition xor_bytes (a b : Buffer) : Buffer := zip_with byte_xor a b.

(** The byte with value [n mod 256]. *)
Definition byte_of_nat (n : nat) : byte :=
  match Byte.of_nat (n mod 256) with
  | Some b => b
  | None => x00
  end.

Definition byte_of_N (n : N) : byte :=
  match Byte.of_N (n mod 256) with
  | Some b => b
  | None => x00
  end.

(** ** JavaScript strings

    A JavaScript string is a sequence of UTF-16 code units; [length] is its
    [.length]. *)

Abbreviation jsstring := (list N).

(** The string whose code units are the characters of an ASCII literal. *)
Definition js (s : string) : jsstring :=
  map N_of_ascii (list_ascii_of_string s).

(** ** Exceptions *)

(** What the [crypto] module reports when it rejects its input. *)
Inductive crypto_failure :=
| InvalidKeyLength
| InvalidIV
| WrongFinalBlockLength
| BadDecrypt.

(** What [fs] reports. *)
Inductive fs_failure :=
| ENOENT (path : string).

Inductive exn :=
| Error (message : string)          (* [new Error(message)] of index.js *)
| TypeError (message : string)      (* raised by the language itself *)
| SyntaxError                       (* raised by [JSON.parse] *)
| CryptoError (why : crypto_failure)
| FsError (why : fs_failure).

(** ** The file system

    [locate] says which file a path names: [None] for a path at which no
    file can be (the empty path, a path through a directory that is not
    there), and the same file for two paths that lead to one place ([enc]
    and [./enc]).  [contents] holds the bytes of the files that exist. *)

Record FileSystem := mkFileSystem {
  locate : string -> option string;
  contents : gmap string (list byte)
}.

(** [fsys !! path]: the bytes of the file at [path], if there is one. *)
#[global] Instance FileSystem_lookup : Lookup string (list byte) FileSystem :=
  fun path fsys =>
    match locate fsys path with
    | Some file => contents fsys !! file
    | None => None
    end.

(** [<[path := data]> fsys]: the file at [path] created or replaced, where a
    file can be at [path]. *)
#[global] Instance FileSystem_insert : Insert string (list byte) FileSystem :=
  fun path data fsys =>
    match locate fsys path with
    | Some file => mkFileSystem (locate fsys) (<[file := data]> (contents fsys))
    | None => fsys
    end.

(** ** The world outside an instance

    [entropy] is the tape the random source reads, [cursor] the position of
    the next unread byte.  [files] is the file system.  [console] is what
    [console.error] has written. *)

Record World := mkWorld {
  entropy : nat -> byte;
  cursor : nat;
  files : FileSystem;
  console : list (string * exn)
}.

(** ** Computations that may throw and that act on the world *)

Definition M (A : Type) : Type := World -> (exn + A) * World.

#[global] Instance M_ret : MRet M := fun A a w => (inr a, w).

#[global] Instance M_bind : MBind M := fun A B k m w =>
  match m w with
  | (inr a, w') => k a w'
  | (inl e, w') => (inl e, w')
  end.

Definition throw {A} (e : exn) : M A := fun w => (inl e, w).

(** [try { m } catch (e) { h e }] *)
Definition try_catch {A} (m : M A) (h : exn -> M A) : M A :=
  fun w =>
    match m w with
    | (inr a, w') => (inr a, w')
    | (inl e, w') => h e w'
    end.

Definition console_error (label : string) (e : exn) : M unit :=
  fun w =>
    (inr tt, mkWorld (entropy w) (cursor w) (files w) (console w ++ [(label, e)])).

(** ** AES-256 (FIPS 197) *)

Module AES.

(** Multiplication by [x] in GF(2^8) modulo [x^8 + x^4 + x^3 + x + 1], on the
    bits of a byte, lowest first. *)
Definition xtime_bits (x : bits8) : bits8 :=
  let '(b0, (b1, (b2, (b3, (b4, (b5, (b6, b7))))))) := x in
  (b7, (xorb b0 b7, (b1, (xorb b2 b7, (xorb b3 b7, (b4, (b5, b6))))))).

Definition xtime (b : byte) : byte := Byte.of_bits (xtime_bits (Byte.to_bits b)).

(** Multiplication in GF(2^8): [b] is read bit by bit, lowest first. *)
Fixpoint gmul_bits (a : byte) (bits : list bool) : byte :=
  match bits with
  | [] => x00
  | bit :: bits' => byte_xor (if bit then a else x00) (gmul_bits (xtime a) bits')
  end.

Definition bit_list (b : byte) : list bool :=
  let '(b0, (b1, (b2, (b3, (b4, (b5, (b6, b7))))))) := Byte.to_bits b in
  [b0; b1; b2; b3; b4; b5; b6; b7].

Definition gmul (a b : byte) : byte := gmul_bits a (bit_list b).

(** The inverse in GF(2^8) is the 254th power; 0 goes to 0. *)
Definition ginv (a : byte) : byte :=
  let a2 := gmul a a in
  let a4 := gmul a2 a2 in
  let a8 := gmul a4 a4 in
  let a16 := gmul a8 a8 in
  let a32 := gmul a16 a16 in
  let a64 := gmul a32 a32 in
  let a128 := gmul a64 a64 in
  gmul a128 (gmul a64 (gmul a32 (gmul a16 (gmul a8 (gmul a4 a2))))).

Definition rotl_bits (x : bits8) : bits8 :=
  let '(b0, (b1, (b2, (b3, (b4, (b5, (b6, b7))))))) := x in
  (b7, (b0, (b1, (b2, (b3, (b4, (b5, b6))))))).

Definition rotl (b : byte) : byte := Byte.of_bits (rotl_bits (Byte.to_bits b)).

(** The affine map of the S-box. *)
Definition affine (b : byte) : byte :=
  byte_xor b (byte_xor (rotl b) (byte_xor (rotl (rotl b))
    (byte_xor (rotl (rotl (rotl b))) (byte_xor (rotl (rotl (rotl (rotl b)))) x63)))).

Definition all_bytes : Buffer := map byte_of_nat (seq 0 256).

Definition sbox_table : Buffer :=
  Eval vm_compute in map (fun b => affine (ginv b)) all_bytes.

Definition sbox (b : byte) : byte := nth (Byte.to_nat b) sbox_table x00.

Definition inv_sbox_table : Buffer :=
  Eval vm_compute in
    map (fun y => default x00 (List.find (fun x => Byte.eqb (sbox x) y) all_bytes)) all_bytes.

Definition inv_sbox (b : byte) : byte := nth (Byte.to_nat b) inv_sbox_table x00.

Definition sub_bytes (s : Buffer) : Buffer := map sbox s.
Definition inv_sub_bytes (s : Buffer) : Buffer := map inv_sbox s.

(** The state is the block column by column: byte [r + 4c] is row [r] of
    column [c].  Row [r] moves [r] places to the left. *)
Definition shift_rows (s : Buffer) : Buffer :=
  match s with
  | [s0; s1; s2; s3; s4; s5; s6; s7; s8; s9; s10; s11; s12; s13; s14; s15] =>
      [s0; s5; s10; s15; s4; s9; s14; s3; s8; s13; s2; s7; s12; s1; s6; s11]
  | _ => s
  end.

Definition inv_shift_rows (s : Buffer) : Buffer :=
  match s with
  | [s0; s1; s2; s3; s4; s5; s6; s7; s8; s9; s10; s11; s12; s13; s14; s15] =>
      [s0; s13; s10; s7; s4; s1; s14; s11; s8; s5; s2; s15; s12; s9; s6; s3]
  | _ => s
  end.

Definition mul2 (b : byte) : byte := xtime b.
Definition mul3 (b : byte) : byte := byte_xor (xtime b) b.
Definition mul9 (b : byte) : byte := byte_xor (xtime (xtime (xtime b))) b.
Definition mul11 (b : byte) : byte :=
  byte_xor (xtime (xtime (xtime b))) (byte_xor (xtime b) b).
Definition mul13 (b : byte) : byte :=
  byte_xor (xtime (xtime (xtime b))) (byte_xor (xtime (xtime b)) b).
Definition mul14 (b : byte) : byte :=
  byte_xor (xtime (xtime (xtime b))) (byte_xor (xtime (xtime b)) (xtime b)).

Definition xor4 (a b c d : byte) : byte := byte_xor a (byte_xor b (byte_xor c d)).

Definition mix_column (a0 a1 a2 a3 : byte) : Buffer :=
  [xor4 (mul2 a0) (mul3 a1) a2 a3;
   xor4 a0 (mul2 a1) (mul3 a2) a3;
   xor4 a0 a1 (mul2 a2) (mul3 a3);
   xor4 (mul3 a0) a1 a2 (mul2 a3)].

Definition inv_mix_column (a0 a1 a2 a3 : byte) : Buffer :=
  [xor4 (mul14 a0) (mul11 a1) (mul13 a2) (mul9 a3);
   xor4 (mul9 a0) (mul14 a1) (mul11 a2) (mul13 a3);
   xor4 (mul13 a0) (mul9 a1) (mul14 a2) (mul11 a3);
   xor4 (mul11 a0) (mul13 a1) (mul9 a2) (mul14 a3)].

Definition mix_columns (s : Buffer) : Buffer :=
  match s with
  | [s0; s1; s2; s3; s4; s5; s6; s7; s8; s9; s10; s11; s12; s13; s14; s15] =>
      mix_column s0 s1 s2 s3 ++ mix_column s4 s5 s6 s7 ++
      mix_column s8 s9 s10 s11 ++ mix_column s12 s13 s14 s15
  | _ => s
  end.

Definition inv_mix_columns (s : Buffer) : Buffer :=
  match s with
  | [s0; s1; s2; s3; s4; s5; s6; s7; s8; s9; s10; s11; s12; s13; s14; s15] =>
      inv_mix_column s0 s1 s2 s3 ++ inv_mix_column s4 s5 s6 s7 ++
      inv_mix_column s8 s9 s10 s11 ++ inv_mix_column s12 s13 s14 s15
  | _ => s
  end.

Definition add_round_key (s round_key : Buffer) : Buffer := xor_bytes s round_key.

(** *** The key schedule for a 256-bit key: 60 words, 15 round keys *)

Record word := mkWord { byte0 : byte; byte1 : byte; byte2 : byte; byte3 : byte }.

Definition word_xor (a b : word) : word :=
  mkWord (byte_xor (byte0 a) (byte0 b)) (byte_xor (byte1 a) (byte1 b))
         (byte_xor (byte2 a) (byte2 b)) (byte_xor (byte3 a) (byte3 b)).

Definition sub_word (a : word) : word :=
  mkWord (sbox (byte0 a)) (sbox (byte1 a)) (sbox (byte2 a)) (sbox (byte3 a)).

Definition rot_word (a : word) : word := mkWord (byte1 a) (byte2 a) (byte3 a) (byte0 a).

(** [rcon j] is [x^(j-1)] in GF(2^8). *)
Definition rcon (j : nat) : word := mkWord (Nat.iter (j - 1) xtime x01) x00 x00 x00.

Definition zero_word : word := mkWord x00 x00 x00 x00.

Definition key_words (key : Buffer) : list word :=
  map (fun j => mkWord (nth (4 * j) key x00) (nth (4 * j + 1) key x00)
                       (nth (4 * j + 2) key x00) (nth (4 * j + 3) key x00))
      (seq 0 8).

Definition next_word (ws : list word) : word :=
  let i := length ws in
  let temp := nth (i - 1) ws zero_word in
  let temp :=
    if i mod 8 =? 0 then word_xor (sub_word (rot_word temp)) (rcon (i / 8))
    else if i mod 8 =? 4 then sub_word temp
    else temp in
  word_xor (nth (i - 8) ws zero_word) temp.

Definition expand_key (key : Buffer) : list word :=
  Nat.iter 52 (fun ws => ws ++ [next_word ws]) (key_words key).

Definition word_bytes (a : word) : Buffer := [byte0 a; byte1 a; byte2 a; byte3 a].

Definition round_key (ws : list word) (r : nat) : Buffer :=
  word_bytes (nth (4 * r) ws zero_word) ++ word_bytes (nth (4 * r + 1) ws zero_word) ++
  word_bytes (nth (4 * r + 2) ws zero_word) ++ word_bytes (nth (4 * r + 3) ws zero_word).

Definition round (ws : list word) (s : Buffer) (r : nat) : Buffer :=
  add_round_key (mix_columns (shift_rows (sub_bytes s))) (round_key ws r).

Definition inv_round (ws : list word) (s : Buffer) (r : nat) : Buffer :=
  inv_sub_bytes (inv_shift_rows (inv_mix_columns (add_round_key s (round_key ws r)))).

(** The cipher: 14 rounds, the last without [mix_columns]. *)
Definition encrypt_block (key block : Buffer) : Buffer :=
  let ws := expand_key key in
  let s := add_round_key block (round_key ws 0) in
  let s := fold_left (round ws) (seq 1 13) s in
  add_round_key (shift_rows (sub_bytes s)) (round_key ws 14).

Definition decrypt_block (key block : Buffer) : Buffer :=
  let ws := expand_key key in
  let s := add_round_key block (round_key ws 14) in
  let s := inv_sub_bytes (inv_shift_rows s) in
  let s := fold_left (inv_round ws) (rev (seq 1 13)) s in
  add_round_key s (round_key ws 0).

End AES.

#[global] Arguments AES.encrypt_block : simpl never.
#[global] Arguments AES.decrypt_block : simpl never.

(** ** SHA-256 (FIPS 180-4) *)

Module SHA256.
Local Open Scope N_scope.

Definition mask32 : N := 0xFFFFFFFF.
Definition add32 (a b : N) : N := (a + b) mod 2 ^ 32.
Definition rotr (n x : N) : N :=
  N.lor (N.shiftr x n) (N.land (N.shiftl x (32 - n)) mask32).
Definition shr (n x : N) : N := N.shiftr x n.
Definition not32 (x : N) : N := N.lxor x mask32.

Definition Ch (x y z : N) : N := N.lxor (N.land x y) (N.land (not32 x) z).
Definition Maj (x y z : N) : N := N.lxor (N.land x y) (N.lxor (N.land x z) (N.land y z)).
Definition Sigma0 (x : N) : N := N.lxor (rotr 2 x) (N.lxor (rotr 13 x) (rotr 22 x)).
Definition Sigma1 (x : N) : N := N.lxor (rotr 6 x) (N.lxor (rotr 11 x) (rotr 25 x)).
Definition sigma0 (x : N) : N := N.lxor (rotr 7 x) (N.lxor (rotr 18 x) (shr 3 x)).
Definition sigma1 (x : N) : N := N.lxor (rotr 17 x) (N.lxor (rotr 19 x) (shr 10 x)).

(** The first 64 primes. *)
Definition is_prime (n : nat) : bool :=
  forallb (fun d => negb (n mod d =? 0)%nat) (seq 2 (n - 2)).
Definition primes : list N :=
  Eval vm_compute in map N.of_nat (take 64 (filter (fun n => is_prime n = true) (seq 2 310))).

(** The largest [r] below [2 ^ bits] with [r ^ 3 <= n]. *)
Fixpoint cube_root (bits : nat) (n r : N) : N :=
  match bits with
  | O => r
  | S bits' =>
      let r' := r + 2 ^ N.of_nat bits' in
      cube_root bits' n (if r' * r' * r' <=? n then r' else r)
  end.

(** The first 32 bits of the fractional parts of the square roots of the
    first 8 primes, and of the cube roots of the first 64. *)
Definition H0 : list N :=
  Eval vm_compute in map (fun p => N.sqrt (p * 2 ^ 64) mod 2 ^ 32) (take 8 primes).
Definition K : list N :=
  Eval vm_compute in map (fun p => cube_root 40 (p * 2 ^ 96) 0 mod 2 ^ 32) primes.

Record state := mkState { a : N; b : N; c : N; d : N; e : N; f : N; g : N; h : N }.

Definition initial : state :=
  mkState (nth 0 H0 0) (nth 1 H0 0) (nth 2 H0 0) (nth 3 H0 0)
          (nth 4 H0 0) (nth 5 H0 0) (nth 6 H0 0) (nth 7 H0 0).

(** The message with its padding: a 1 bit, zeros, and the length in bits as
    64 bits, up to a multiple of 64 bytes. *)
Definition pad (message : Buffer) : Buffer :=
  let len := length message in
  let zeros := ((64 - (len + 9) mod 64) mod 64)%nat in
  let bits := N.of_nat len * 8 in
  message ++ [x80] ++ replicate zeros x00 ++
  map (fun i => byte_of_N (N.shiftr bits (8 * N.of_nat (7 - i)))) (seq 0 8).

Definition word_of_bytes (block : Buffer) (i : nat) : N :=
  let byte_at j := Byte.to_N (nth (4 * i + j)%nat block x00) in
  byte_at 0%nat * 2 ^ 24 + byte_at 1%nat * 2 ^ 16 + byte_at 2%nat * 2 ^ 8 + byte_at 3%nat.

(** The message schedule: 16 words of the block, then 48 more. *)
Definition schedule (block : Buffer) : list N :=
  Nat.iter 48
    (fun w =>
       let t := length w in
       w ++ [add32 (add32 (sigma1 (nth (t - 2) w 0)) (nth (t - 7) w 0))
                   (add32 (sigma0 (nth (t - 15) w 0)) (nth (t - 16) w 0))])
    (map (word_of_bytes block) (seq 0 16)).

Definition step (s : state) (kw : N * N) : state :=
  let '(k, w) := kw in
  let t1 := add32 (add32 (add32 (h s) (Sigma1 (e s))) (add32 (Ch (e s) (f s) (g s)) k)) w in
  let t2 := add32 (Sigma0 (a s)) (Maj (a s) (b s) (c s)) in
  mkState (add32 t1 t2) (a s) (b s) (c s) (add32 (d s) t1) (e s) (f s) (g s).

Definition compress (s : state) (block : Buffer) : state :=
  let s' := fold_left step (zip K (schedule block)) s in
  mkState (add32 (a s) (a s')) (add32 (b s) (b s')) (add32 (c s) (c s')) (add32 (d s) (d s'))
          (add32 (e s) (e s')) (add32 (f s) (f s')) (add32 (g s) (g s')) (add32 (h s) (h s')).

Fixpoint blocks (n : nat) (s : state) (data : Buffer) : state :=
  match n with
  | O => s
  | S n' => blocks n' (compress s (take 64 data)) (drop 64 data)
  end.

Definition word_bytes (w : N) : Buffer :=
  [byte_of_N (N.shiftr w 24); byte_of_N (N.shiftr w 16); byte_of_N (N.shiftr w 8); byte_of_N w].

Definition digest (message : Buffer) : Buffer :=
  let padded := pad message in
  let s := blocks (length padded / 64) initial padded in
  word_bytes (a s) ++ word_bytes (b s) ++ word_bytes (c s) ++ word_bytes (d s) ++
  word_bytes (e s) ++ word_bytes (f s) ++ word_bytes (g s) ++ word_bytes (h s).

End SHA256.

#[global] Arguments SHA256.digest : simpl never.

(** ** What is taken as given

    [buf.toString("utf8")] and [JSON] are not written out here.  The class
    only passes values through them; what it needs of them is said in
    section [Laws]. *)

Class Platform := {
  (** [buf.toString("utf8")] *)
  utf8_decode : Buffer -> jsstring;
  (** The values [JSON.stringify] turns into a string, and [JSON.parse],
      which gives [None] where it throws. *)
  JSONValue : Type;
  JSON_stringify : JSONValue -> jsstring;
  JSON_parse : jsstring -> option JSONValue
}.

(** ** [Buffer] *)

Module Buffer.

(** [Buffer.concat(list)] *)
Definition concat (l : list Buffer) : Buffer := List.concat l.

(** [buf.slice(start)] and [buf.slice(0, end)], both clamped to the
    length of the buffer. *)
Definition slice_from (start : nat) (buf : Buffer) : Buffer := drop start buf.
Definition slice_to (stop : nat) (buf : Buffer) : Buffer := take stop buf.

Local Open Scope N_scope.

(** *** Hexadecimal *)

Definition hex_digit (n : N) : N := if n <? 10 then 48 + n else 87 + n.

(** [buf.toString("hex")]: two lower-case digits per byte. *)
Definition toString_hex (buf : Buffer) : jsstring :=
  flat_map (fun b => [hex_digit (Byte.to_N b / 16); hex_digit (Byte.to_N b mod 16)]) buf.

(** *** UTF-8 *)

Definition is_high_surrogate (u : N) : bool := (0xD800 <=? u) && (u <? 0xDC00).
Definition is_low_surrogate (u : N) : bool := (0xDC00 <=? u) && (u <? 0xE000).

(** U+FFFD, which stands for a surrogate without its partner. *)
Definition replacement : Buffer := [xef; xbf; xbd].

Definition utf8_of_code_point (cp : N) : Buffer :=
  if cp <? 0x80 then [byte_of_N cp]
  else if cp <? 0x800 then
    [byte_of_N (0xC0 + cp / 64); byte_of_N (0x80 + cp mod 64)]
  else if cp <? 0x10000 then
    [byte_of_N (0xE0 + cp / 4096); byte_of_N (0x80 + cp / 64 mod 64);
     byte_of_N (0x80 + cp mod 64)]
  else
    [byte_of_N (0xF0 + cp / 262144); byte_of_N (0x80 + cp / 4096 mod 64);
     byte_of_N (0x80 + cp / 64 mod 64); byte_of_N (0x80 + cp mod 64)].

(** [Buffer.from(s, "utf8")] *)
Fixpoint from_utf8 (s : jsstring) : Buffer :=
  match s with
  | [] => []
  | u :: rest =>
      if is_high_surrogate u then
        match rest with
        | lo :: rest' =>
            if is_low_surrogate lo
            then utf8_of_code_point (0x10000 + (u - 0xD800) * 1024 + (lo - 0xDC00))
                   ++ from_utf8 rest'
            else replacement ++ from_utf8 rest
        | [] => replacement
        end
      else if is_low_surrogate u then replacement ++ from_utf8 rest
      else utf8_of_code_point u ++ from_utf8 rest
  end.

(** *** Base64 *)

Definition base64_alphabet : jsstring :=
  js "ABCDEFGHIJKLMNOPQRSTUVWXYZabcdefghijklmnopqrstuvwxyz0123456789+/".

Definition char_of_sextet (n : N) : N := nth (N.to_nat n) base64_alphabet 0.

(** The decoder looks at the low 8 bits of a code unit and at nothing
    else. *)
Definition low_byte (c : N) : N := c mod 256.

(** The value of a character of the alphabet; [-] and [_] count as [+] and
    [/]. *)
Definition sextet_of_char (c : N) : option N :=
  let c := low_byte c in
  if (65 <=? c) && (c <=? 90) then Some (c - 65)
  else if (97 <=? c) && (c <=? 122) then Some (c - 71)
  else if (48 <=? c) && (c <=? 57) then Some (c + 4)
  else if (c =? 43) || (c =? 45) then Some 62
  else if (c =? 47) || (c =? 95) then Some 63
  else None.

Definition equals_sign : N := 61.

(** [buf.toString("base64")] *)
Fixpoint toString_base64 (buf : Buffer) : jsstring :=
  match buf with
  | [] => []
  | [b0] =>
      let n0 := Byte.to_N b0 in
      [char_of_sextet (n0 / 4); char_of_sextet (n0 mod 4 * 16); equals_sign; equals_sign]
  | [b0; b1] =>
      let n0 := Byte.to_N b0 in
      let n1 := Byte.to_N b1 in
      [char_of_sextet (n0 / 4); char_of_sextet (n0 mod 4 * 16 + n1 / 16);
       char_of_sextet (n1 mod 16 * 4); equals_sign]
  | b0 :: b1 :: b2 :: rest =>
      let n0 := Byte.to_N b0 in
      let n1 := Byte.to_N b1 in
      let n2 := Byte.to_N b2 in
      [char_of_sextet (n0 / 4); char_of_sextet (n0 mod 4 * 16 + n1 / 16);
       char_of_sextet (n1 mod 16 * 4 + n2 / 64); char_of_sextet (n2 mod 64)]
      ++ toString_base64 rest
  end.

(** The sextets of a text: it ends at the first [=], and characters outside
    the alphabet are passed over. *)
Fixpoint sextets (s : jsstring) : list N :=
  match s with
  | [] => []
  | c :: rest =>
      if low_byte c =? equals_sign then []
      else match sextet_of_char c with
           | Some n => n :: sextets rest
           | None => sextets rest
           end
  end.

Fixpoint bytes_of_sextets (l : list N) : Buffer :=
  match l with
  | s0 :: s1 :: s2 :: s3 :: rest =>
      [byte_of_N (s0 * 4 + s1 / 16); byte_of_N (s1 mod 16 * 16 + s2 / 4);
       byte_of_N (s2 mod 4 * 64 + s3)] ++ bytes_of_sextets rest
  | [s0; s1; s2] =>
      [byte_of_N (s0 * 4 + s1 / 16); byte_of_N (s1 mod 16 * 16 + s2 / 4)]
  | [s0; s1] => [byte_of_N (s0 * 4 + s1 / 16)]
  | _ => []
  end.

(** [Buffer.from(s, "base64")] *)
Definition from_base64 (s : jsstring) : Buffer := bytes_of_sextets (sextets s).

End Buffer.

(** A code unit that is one of [0-9a-f]. *)
Definition is_hex_lower (c : N) : bool :=
  ((48 <=? c) && (c <=? 57) || (97 <=? c) && (c <=? 102))%N.

(** ** [crypto] *)

Module crypto.

(** [crypto.randomBytes(n)]: the next [n] bytes of the tape. *)
Definition randomBytes (n : nat) : M Buffer :=
  fun w =>
    (inr (map (entropy w) (seq (cursor w) n)),
     mkWorld (entropy w) (cursor w + n) (files w) (console w)).

(** The object [createCipheriv("aes-256-cbc", key, iv)] returns: the key,
    the last ciphertext block (at first the IV) and the input not yet
    making a whole block. *)
Record Cipher := mkCipher {
  c_key : Buffer;
  c_chain : Buffer;
  c_buf : Buffer
}.

(** The object [createDecipheriv("aes-256-cbc", key, iv)] returns; [d_final]
    is the last decrypted block, held back until [final] has looked at its
    padding. *)
Record Decipher := mkDecipher {
  d_key : Buffer;
  d_chain : Buffer;
  d_buf : Buffer;
  d_final : option Buffer
}.

Definition createCipheriv (key iv : Buffer) : M Cipher :=
  if negb (length iv =? 16) then throw (CryptoError InvalidIV)
  else if negb (length key =? 32) then throw (CryptoError InvalidKeyLength)
  else mret (mkCipher key iv []).

Definition createDecipheriv (key iv : Buffer) : M Decipher :=
  if negb (length iv =? 16) then throw (CryptoError InvalidIV)
  else if negb (length key =? 32) then throw (CryptoError InvalidKeyLength)
  else mret (mkDecipher key iv [] None).

(** CBC over the first [n] blocks of [data]: the output and the new chaining
    block. *)
Fixpoint encrypt_blocks (n : nat) (key chain data : Buffer) : Buffer * Buffer :=
  match n with
  | 0 => ([], chain)
  | S n' =>
      let c := AES.encrypt_block key (xor_bytes (take 16 data) chain) in
      let '(out, chain') := encrypt_blocks n' key c (drop 16 data) in
      (c ++ out, chain')
  end.

Fixpoint decrypt_blocks (n : nat) (key chain data : Buffer) : Buffer * Buffer :=
  match n with
  | 0 => ([], chain)
  | S n' =>
      let c := take 16 data in
      let p := xor_bytes (AES.decrypt_block key c) chain in
      let '(out, chain') := decrypt_blocks n' key c (drop 16 data) in
      (p ++ out, chain')
  end.

(** [cipher.update(data)]: every whole block of what is buffered and [data]
    is encrypted, the rest stays buffered. *)
Definition cipher_update (c : Cipher) (data : Buffer) : Buffer * Cipher :=
  let input := c_buf c ++ data in
  let n := length input / 16 in
  let '(out, chain') := encrypt_blocks n (c_key c) (c_chain c) input in
  (out, mkCipher (c_key c) chain' (drop (16 * n) input)).

(** [cipher.final()]: the buffered rest is filled up to a block with [pad]
    bytes of value [pad] and encrypted. *)
Definition cipher_final (c : Cipher) : M Buffer :=
  let pad := 16 - length (c_buf c) in
  mret (AES.encrypt_block (c_key c)
          (xor_bytes (c_buf c ++ replicate pad (byte_of_nat pad)) (c_chain c))).

(** [decipher.update(data)]: as for a cipher, but when the input ends on a
    block boundary the last decrypted block is held back. *)
Definition decipher_update (d : Decipher) (data : Buffer) : Buffer * Decipher :=
  match data with
  | [] => ([], d)
  | _ =>
      let input := d_buf d ++ data in
      let n := length input / 16 in
      let '(out, chain') := decrypt_blocks n (d_key d) (d_chain d) input in
      let out := default [] (d_final d) ++ out in
      let rest := drop (16 * n) input in
      if length rest =? 0
      then (take (length out - 16) out,
            mkDecipher (d_key d) chain' [] (Some (drop (length out - 16) out)))
      else (out, mkDecipher (d_key d) chain' rest None)
  end.

(** The padding check of [decipher.final()] on the held-back block: its
    last byte [n] must be between 1 and 16 and each of the last [n] bytes
    must be [n]. *)
Definition strip_padding (block : Buffer) : option Buffer :=
  let n := Byte.to_nat (List.last block x00) in
  if (n =? 0) || (16 <? n) then None
  else if forallb (Byte.eqb (byte_of_nat n)) (drop (16 - n) block)
       then Some (take (16 - n) block)
       else None.

Definition decipher_final (d : Decipher) : M Buffer :=
  match d_final d with
  | Some block =>
      if negb (length (d_buf d) =? 0) then throw (CryptoError WrongFinalBlockLength)
      else match strip_padding block with
           | Some plain => mret plain
           | None => throw (CryptoError BadDecrypt)
           end
  | None => throw (CryptoError WrongFinalBlockLength)
  end.

(** [crypto.createHash("sha256").update(value).digest()] for a string
    [value], which [update] reads as UTF-8. *)
Definition createHash_sha256_digest (value : jsstring) : Buffer :=
  SHA256.digest (Buffer.from_utf8 value).

End crypto.

(** ** [fs] *)

Module fs.

(** [fs.readFileSync(filename)] *)
Definition readFileSync (filename : string) : M Buffer :=
  fun w =>
    match files w !! filename with
    | Some content => (inr content, w)
    | None => (inl (FsError (ENOENT filename)), w)
    end.

(** [fs.writeFileSync(filename, data)] for a buffer [data]: the file is
    created or replaced; where no file can be at the path the call throws
    and writes nothing. *)
Definition writeFileSync (filename : string) (data : Buffer) : M unit :=
  fun w =>
    match locate (files w) filename with
    | Some _ =>
        (inr tt, mkWorld (entropy w) (cursor w) (<[filename := data]> (files w)) (console w))
    | None => (inl (FsError (ENOENT filename)), w)
    end.

End fs.

(** ** Values handed to the accessors

    [JObject] is any other object, as far as the accessors look at it: its
    property [length], [None] when that is anything but a natural number,
    and its property [from], [None] when that is not a function.  A function
    [from] may act on the world and may throw; where it returns, it returns
    a buffer.  An object whose [from] returns anything else is left out:
    the field [_key] holds [null] or a buffer here. *)

Inductive jsval :=
| JUndefined
| JNull
| JBoolean (b : bool)
| JNumber (n : Z)
| JString (s : jsstring)
| JBuffer (b : Buffer)
| JObject (len : option nat) (from : option (jsstring -> M Buffer)).

(** [typeof value === "string"] *)
Definition typeof_is_string (value : jsval) : bool :=
  match value with
  | JString _ => true
  | _ => false
  end.

(** [value.length]: reading a property of [undefined] or [null] throws; a
    boolean or a number has no [length], the result is [undefined]; an
    object has what it was given. *)
Definition get_length (value : jsval) : M (option nat) :=
  match value with
  | JUndefined => throw (TypeError "Cannot read properties of undefined (reading 'length')")
  | JNull => throw (TypeError "Cannot read properties of null (reading 'length')")
  | JBoolean _ | JNumber _ => mret None
  | JString s => mret (Some (length s))
  | JBuffer b => mret (Some (length b))
  | JObject len _ => mret len
  end.

(** [value.from]: neither a string nor a [Buffer] instance has a member
    [from] ([Buffer.from] belongs to the constructor), so there is a function
    to call only where an object brings its own. *)
Definition get_from (value : jsval) : option (jsstring -> M Buffer) :=
  match value with
  | JObject _ from => from
  | _ => None
  end.

(** ** [class TopSecret] *)

Record TopSecret := mkTopSecret {
  _key : option Buffer;          (* [null] or the key *)
  _password : option jsstring    (* [null] or the password *)
}.

Definition constructor : TopSecret := mkTopSecret None None.

Section TopSecret.
Context `{P : Platform}.

(** [get randomKey()] *)
Definition randomKey (this : TopSecret) : M (jsstring * TopSecret) :=
  key ← crypto.randomBytes 32;
  mret (Buffer.toString_hex key, mkTopSecret (Some key) (_password this)).

(** [encryptBuffer(buffer)] *)
Definition encryptBuffer (this : TopSecret) (buffer : Buffer) : M Buffer :=
  match _key this with
  | None => throw (Error "Key is not set.")
  | Some key =>
      iv ← crypto.randomBytes 16;
      cipher ← crypto.createCipheriv key iv;
      let '(body, cipher) := crypto.cipher_update cipher buffer in
      last ← crypto.cipher_final cipher;
      mret (Buffer.concat [iv; body; last])
  end.

(** [encryptJSON(data)] *)
Definition encryptJSON (this : TopSecret) (data : JSONValue) : M jsstring :=
  match _key this with
  | None => throw (Error "Key is not set.")
  | Some _ =>
      let jsonString := JSON_stringify data in
      encryptedBuffer ← encryptBuffer this (Buffer.from_utf8 jsonString);
      mret (Buffer.toString_base64 encryptedBuffer)
  end.

(** [decryptBuffer(buffer)] *)
Definition decryptBuffer (this : TopSecret) (buffer : Buffer) : M Buffer :=
  match _key this with
  | None => throw (Error "Key is not set.")
  | Some key =>
      let iv := Buffer.slice_to 16 buffer in
      let encryptedText := Buffer.slice_from 16 buffer in
      decipher ← crypto.createDecipheriv key iv;
      let '(body, decipher) := crypto.decipher_update decipher encryptedText in
      last ← crypto.decipher_final decipher;
      mret (Buffer.concat [body; last])
  end.

(** [decryptJSON(encryptedData)] *)
Definition decryptJSON (this : TopSecret) (encryptedData : jsstring) : M JSONValue :=
  match _key this with
  | None => throw (Error "Key is not set.")
  | Some _ =>
      let encryptedBuffer := Buffer.from_base64 encryptedData in
      decryptedBuffer ← decryptBuffer this encryptedBuffer;
      match JSON_parse (utf8_decode decryptedBuffer) with
      | Some value => mret value
      | None => throw SyntaxError
      end
  end.

(** [get key()] *)
Definition get_key (this : TopSecret) : M jsstring :=
  match _key this with
  | None => throw (TypeError "Cannot read properties of null (reading 'toString')")
  | Some key => mret (Buffer.toString_hex key)
  end.

(** [set key(value)] *)
Definition set_key (this : TopSecret) (value : jsval) : M TopSecret :=
  len ← get_length value;
  if negb (bool_decide (len = Some 64)) then throw (Error "Key must be 64 bytes long.")
  else match get_from value with
       | None => throw (TypeError "value.from is not a function")
       | Some from =>
           key ← from (js "hex");
           mret (mkTopSecret (Some key) (_password this))
       end.

(** [get password()] *)
Definition get_password (this : TopSecret) : option jsstring := _password this.

(** [set password(value)] *)
Definition set_password (this : TopSecret) (value : jsval) : M TopSecret :=
  match value with
  | JString s =>
      if length s =? 0 then throw (Error "Password must be a non-empty string.")
      else mret (mkTopSecret (Some (crypto.createHash_sha256_digest s)) (Some s))
  | _ => throw (Error "Password must be a non-empty string.")
  end.

(** [loadBufferFromFile(filename)] *)
Definition loadBufferFromFile (this : TopSecret) (filename : string) : M Buffer :=
  try_catch
    (encryptedBuffer ← fs.readFileSync filename;
     decryptBuffer this encryptedBuffer)
    (fun error =>
       console_error "Failed to load buffer from file:" error;;
       throw (Error "Failed to load buffer from file.")).

(** [loadJSONFromFile(filename)] *)
Definition loadJSONFromFile (this : TopSecret) (filename : string) : M JSONValue :=
  try_catch
    (content ← fs.readFileSync filename;
     let encryptedData := utf8_decode content in
     decryptJSON this encryptedData)
    (fun error =>
       console_error "Failed to load JSON from file:" error;;
       throw (Error "Failed to load JSON from file.")).

(** [saveBufferToFile(filename, buffer)] *)
Definition saveBufferToFile (this : TopSecret) (filename : string) (buffer : Buffer) : M unit :=
  try_catch
    (encryptedBuffer ← encryptBuffer this buffer;
     fs.writeFileSync filename encryptedBuffer)
    (fun error =>
       console_error "Failed to save buffer to file:" error;;
       throw (Error "Failed to save buffer to file.")).

(** [saveJSONToFile(filename, data)] *)
Definition saveJSONToFile (this : TopSecret) (filename : string) (data : JSONValue) : M unit :=
  try_catch
    (encryptedData ← encryptJSON this data;
     fs.writeFileSync filename (Buffer.from_utf8 encryptedData))
    (fun error =>
       console_error "Failed to save JSON to file:" error;;
       throw (Error "Failed to save JSON to file.")).

End TopSecret.

(** The members the class declares, in the order of the source. *)
Inductive member :=
| m_randomKey
| m_encryptBuffer
| m_encryptJSON
| m_decryptBuffer
| m_decryptJSON
| m_key
| m_password
| m_loadBufferFromFile
| m_loadJSONFromFile
| m_saveBufferToFile
| m_saveJSONToFile.

Definition member_name (m : member) : string :=
  match m with
  | m_randomKey => "randomKey"
  | m_encryptBuffer => "encryptBuffer"
  | m_encryptJSON => "encryptJSON"
  | m_decryptBuffer => "decryptBuffer"
  | m_decryptJSON => "decryptJSON"
  | m_key => "key"
  | m_password => "password"
  | m_loadBufferFromFile => "loadBufferFromFile"
  | m_loadJSONFromFile => "loadJSONFromFile"
  | m_saveBufferToFile => "saveBufferToFile"
  | m_saveJSONToFile => "saveJSONToFile"
  end.

Definition members : list member :=
  [m_randomKey; m_encryptBuffer; m_encryptJSON; m_decryptBuffer; m_decryptJSON;
   m_key; m_password; m_loadBufferFromFile; m_loadJSONFromFile;
   m_saveBufferToFile; m_saveJSONToFile].

(** What an instance has besides: its two fields, and what it inherits from
    [Object.prototype]. *)
Definition fields : list string := ["_key"; "_password"].

Definition object_prototype : list string :=
  ["constructor"; "hasOwnProperty"; "isPrototypeOf"; "propertyIsEnumerable";
   "toLocaleString"; "toString"; "valueOf"; "__defineGetter__"; "__defineSetter__";
   "__lookupGetter__"; "__lookupSetter__"; "__proto__"].

Inductive property :=
| Field (name : string)
| Declared (m : member)
| Inherited (name : string).

(** What a property name of an instance resolves to: own fields first, then
    the class, then [Object.prototype]. *)
Definition resolve (name : string) : option property :=
  if existsb (String.eqb name) fields then Some (Field name)
  else match List.find (fun m => String.eqb (member_name m) name) members with
       | Some m => Some (Declared m)
       | None =>
           if existsb (String.eqb name) object_prototype then Some (Inherited name)
           else None
       end.

(** [topSecret.name(...)]: [declared] and [inherited] say what the call does
    once the member is found.  A field holds [null], a buffer or a string,
    and a name that resolves to nothing is [undefined]: calling either
    throws. *)
Definition call {A} (name : string)
    (declared : member -> M A) (inherited : string -> M A) : M A :=
  match resolve name with
  | Some (Declared m) => declared m
  | Some (Inherited n) => inherited n
  | Some (Field _) | None => throw (TypeError (name +:+ " is not a function"))
  end.

(** ** How the specification names the failures

    [index.js] throws plain [Error] objects told apart by their message; the
    platform throws its own.  The specification speaks of error kinds. *)

Inductive ErrorKind :=
| PreconditionError
| ValidationError
| DecryptionError
| ParseError
| IOError.

Definition classify (e : exn) : option ErrorKind :=
  match e with
  | Error message =>
      if String.eqb message "Key is not set." then Some PreconditionError
      else if String.eqb message "Key must be 64 bytes long." then Some ValidationError
      else if String.eqb message "Password must be a non-empty string." then Some ValidationError
      else if String.prefix "Failed to " message then Some IOError
      else None
  | TypeError _ => None
  | SyntaxError => Some ParseError
  | CryptoError _ => Some DecryptionError
  | FsError _ => Some IOError
  end.

(** The outcome of a computation is a failure of the given kind. *)
Definition fails_with {A} (kind : ErrorKind) (outcome : (exn + A) * World) : Prop :=
  exists e, outcome.1 = inl e /\ classify e = Some kind.

(** ** What encryption and decryption compute, said in one piece *)

(** PKCS#7: fill up to the next multiple of 16, always at least one byte. *)
Definition pkcs7_pad (data : Buffer) : Buffer :=
  let pad := 16 - length data mod 16 in
  data ++ replicate pad (byte_of_nat pad).

(** The inverse: the last byte [n] says how many bytes to take away; it must
    be between 1 and 16 and the last [n] bytes must all be [n]. *)
Definition pkcs7_unpad (data : Buffer) : option Buffer :=
  let n := Byte.to_nat (List.last data x00) in
  if (n =? 0) || (16 <? n) || (length data <? n) then None
  else if forallb (Byte.eqb (byte_of_nat n)) (drop (length data - n) data)
       then Some (take (length data - n) data)
       else None.

Definition cbc_encrypt (key iv data : Buffer) : Buffer :=
  (crypto.encrypt_blocks (length data / 16) key iv data).1.

Definition cbc_decrypt (key iv data : Buffer) : Buffer :=
  (crypto.decrypt_blocks (length data / 16) key iv data).1.

(** The 16 bytes an encryption started in world [w] draws as its IV. *)
Definition next_iv (w : World) : Buffer := map (entropy w) (seq (cursor w) 16).

(** The world after [n] bytes of the tape have been read. *)
Definition advance (n : nat) (w : World) : World :=
  mkWorld (entropy w) (cursor w + n) (files w) (console w).

(** ** What the class needs of the platform *)

Section Laws.
Context `{P : Platform}.

(** [JSON.stringify] gives well-formed text, which UTF-8 carries
    unchanged. *)
Definition json_text_survives_utf8 : Prop :=
  forall value, utf8_decode (Buffer.from_utf8 (JSON_stringify value)) = JSON_stringify value.

End Laws.

(** ** Instances that can arise

    from a new one through the three members that assign a field, when the
    key setter is handed [allowed] values only. *)

Inductive reachable (allowed : jsval -> Prop) : TopSecret -> Prop :=
| reach_new : reachable allowed constructor
| reach_randomKey this w hex this' w' :
    reachable allowed this -> randomKey this w = (inr (hex, this'), w') ->
    reachable allowed this'
| reach_set_key this value w this' w' :
    allowed value ->
    reachable allowed this -> set_key this value w = (inr this', w') ->
    reachable allowed this'
| reach_set_password this value w this' w' :
    reachable allowed this -> set_password this value w = (inr this', w') ->
    reachable allowed this'.

(** A value that brings no function [from]: every string, number, boolean
    and buffer, [null], [undefined], and every object without one. *)
Definition without_from (value : jsval) : Prop := get_from value = None.

(** ** A platform to run the class on

    UTF-8 decoding that is right on ASCII text (any other byte becomes
    U+FFFD), and [JSON] cut down to the literals [null], [true] and
    [false]. *)

Definition ascii_decode (buf : Buffer) : jsstring :=
  map (fun b => if (Byte.to_N b <? 128)%N then Byte.to_N b else 0xFFFD%N) buf.

Definition literal_stringify (value : option bool) : jsstring :=
  match value with
  | None => js "null"
  | Some true => js "true"
  | Some false => js "false"
  end.

Definition literal_parse (text : jsstring) : option (option bool) :=
  if bool_decide (text = js "null") then Some None
  else if bool_decide (text = js "true") then Some (Some true)
  else if bool_decide (text = js "false") then Some (Some false)
  else None.

Definition literals : Platform := {|
  utf8_decode := ascii_decode;
  JSONValue := option bool;
  JSON_stringify := literal_stringify;
  JSON_parse := literal_parse
|}.

(** The same with the number [NaN] besides, which [JSON.stringify] writes
    as [null]. *)

Inductive literal_or_NaN :=
| Literal (value : option bool)
| NaN.

Definition NaN_stringify (value : literal_or_NaN) : jsstring :=
  match value with
  | Literal l => literal_stringify l
  | NaN => js "null"
  end.

Definition NaN_parse (text : jsstring) : option literal_or_NaN :=
  match literal_parse text with
  | Some l => Some (Literal l)
  | None => None
  end.

Definition literals_and_NaN : Platform := {|
  utf8_decode := ascii_decode;
  JSONValue := literal_or_NaN;
  JSON_stringify := NaN_stringify;
  JSON_parse := NaN_parse
|}.

(** A file system of one directory, with no file in it yet: a path names a
    file when it is a file name, with or without [./] before it. *)
Definition one_directory (path : string) : option string :=
  let name := if String.prefix "./" path
              then String.substring 2 (String.length path - 2) path
              else path in
  if String.eqb name "" then None
  else match String.index 0 "/" name with
       | Some _ => None
       | None => Some name
       end.

Definition no_files : FileSystem := mkFileSystem one_directory ∅.

(** The key and the plaintext of FIPS 197, appendix C.3, an instance holding
    that key, and a world whose random source counts up from 0. *)
Definition sample_key : Buffer := map byte_of_nat (seq 0 32).
Definition sample_block : Buffer := map (fun i => byte_of_nat (17 * i)) (seq 0 16).
Definition sample : TopSecret := mkTopSecret (Some sample_key) None.
Definition counting : World := mkWorld byte_of_nat 0 no_files [].

(** A world whose random source gives the same byte for ever. *)
Definition stuck : World := mkWorld (fun _ => x00) 0 no_files [].

(** ** Words for what the file members leave behind *)

(** The world after [console.error(label, e)]. *)
Definition logged (label : string) (e : exn) (w : World) : World :=
  mkWorld (entropy w) (cursor w) (files w) (console w ++ [(label, e)]).

(** One more thing wanted of the platform, for text that goes through a
    file: [buf.toString("utf8")] gives back ASCII text. *)
Definition utf8_keeps_ascii `{P : Platform} : Prop :=
  forall text, Forall (fun c => (c < 128)%N) text ->
    utf8_decode (Buffer.from_utf8 text) = text.

(** A character of Base64 text. *)
Definition is_base64_char (c : N) : Prop :=
  In c Buffer.base64_alphabet \/ c = Buffer.equals_sign.

(** * Properties *)

(** ** Known answers *)

(** FIPS 197, appendix C.3. *)
Example aes256_known_answer :
  Buffer.toString_hex (AES.encrypt_block sample_key sample_block)
  = js "8ea2b7ca516745bfeafc49904b496089".
Proof. vm_compute. reflexivity. Qed.

(** FIPS 180-4: the digest of "abc", and of a message of two blocks. *)
Example sha256_known_answer :
  Buffer.toString_hex (SHA256.digest (Buffer.from_utf8 (js "abc")))
  = js "ba7816bf8f01cfea414140de5dae2223b00361a396177a9cb410ff61f20015ad".
Proof. vm_compute. reflexivity. Qed.

Example sha256_two_blocks :
  Buffer.toString_hex (SHA256.digest (Buffer.from_utf8
    (js "abcdbcdecdefdefgefghfghighijhijkijkljklmklmnlmnomnopnopq")))
  = js "248d6a61d20638b8e5c026930c3e6039a33ce45964ff2167f6ecedd419db06c1".
Proof. vm_compute. reflexivity. Qed.

(** U+00E9, U+20AC, U+1F600 as a surrogate pair, and a high surrogate
    without its partner. *)
Example from_utf8_known_answer :
  Buffer.toString_hex (Buffer.from_utf8 [0xE9; 0x20AC; 0xD83D; 0xDE00; 0xD83D; 0x41]%N)
  = js "c3a9e282acf09f9880efbfbd41".
Proof. vm_compute. reflexivity. Qed.

(** RFC 4648, section 10. *)
Example base64_known_answer :
  map (fun s => Buffer.toString_base64 (Buffer.from_utf8 (js s)))
      [""; "f"; "fo"; "foo"; "foob"; "fooba"; "foobar"]
  = map js [""; "Zg=="; "Zm8="; "Zm9v"; "Zm9vYg=="; "Zm9vYmE="; "Zm9vYmFy"].
Proof. vm_compute. reflexivity. Qed.

(** The envelope of "hello world" under the sample key, the IV being the
    bytes 0 to 15: what AES-256-CBC with PKCS#7 padding gives. *)
Example encryptBuffer_known_answer :
  (encryptBuffer sample (Buffer.from_utf8 (js "hello world")) counting).1
  = inr (map byte_of_nat (seq 0 16) ++
         [xb5; x75; xa2; xc0; x3e; x57; x71; x10; xf6; xc0; x10; x3c; x28; x71; x98; x96]).
Proof. vm_compute. reflexivity. Qed.

(** The key a password gives. *)
Example set_password_known_answer :
  (this ← set_password constructor (JString (js "hunter2")); get_key this) counting
  = (inr (js "f52fbd32b2b3b86ff88ef6c490628285f482af15ddcb29541f94bcf526a3f6c7"), counting).
Proof. vm_compute. reflexivity. Qed.

(** What [decryptBuffer] says to nothing, to 15 bytes, to an IV alone, to an
    IV and a byte, and to an IV and a block of zeros. *)
Example decryptBuffer_failures :
  map (fun n => (decryptBuffer sample (replicate n x00) counting).1) [0; 15; 16; 17; 32]
  = [inl (CryptoError InvalidIV); inl (CryptoError InvalidIV);
     inl (CryptoError WrongFinalBlockLength); inl (CryptoError WrongFinalBlockLength);
     inl (CryptoError BadDecrypt)].
Proof. vm_compute. reflexivity. Qed.

(** Base64 decoding reads the low byte of a code unit: U+0141 counts as
    [A], U+0041. *)
Example from_base64_low_byte :
  Buffer.from_base64 [0x141; 0x51; 0x141; 0x42]%N = Buffer.from_base64 (js "AQAB") /\
  Buffer.from_base64 (js "AQAB") = [x01; x00; x01].
Proof. vm_compute. split; reflexivity. Qed.

(** An object of length 64 whose function [from] returns nine bytes: the key
    setter makes them the key, the key getter shows 18 characters, and the
    cipher refuses the key. *)
Example set_key_through_from :
  let object := JObject (Some 64) (Some (fun _ => mret (replicate 9 x01))) in
  (this ← set_key constructor object; get_key this) counting
    = (inr (js "010101010101010101"), counting) /\
  ((this ← set_key constructor object; encryptBuffer this []) counting).1
    = inl (CryptoError InvalidKeyLength).
Proof. vm_compute. split; reflexivity. Qed.

(** The paths of the sample file system. *)
Example one_directory_paths :
  map one_directory ["enc"; "./enc"; ""; "nodir/enc"] = [Some "enc"; Some "enc"; None; None].
Proof. vm_compute. reflexivity. Qed.

(** Saving through [./enc] and loading through [enc]; saving into a
    directory that is not there. *)
Example saveBufferToFile_paths :
  ((saveBufferToFile sample "./enc" sample_block;; loadBufferFromFile sample "enc") counting).1
    = inr sample_block /\
  (saveBufferToFile sample "nodir/enc" sample_block counting).1
    = inl (Error "Failed to save buffer to file.").
Proof. vm_compute. split; reflexivity. Qed.

(** ** Bytes *)

Lemma byte_xor_cancel (a b : byte) : byte_xor (byte_xor a b) b = a.
Proof.
  unfold byte_xor. rewrite Byte.to_bits_of_bits.
  rewrite <- (Byte.of_bits_to_bits a) at 2. f_equal.
  destruct (Byte.to_bits a) as (a0 & a1 & a2 & a3 & a4 & a5 & a6 & a7).
  destruct (Byte.to_bits b) as (b0 & b1 & b2 & b3 & b4 & b5 & b6 & b7).
  cbn. rewrite !xorb_assoc, !xorb_nilpotent, !xorb_false_r. reflexivity.
Qed.

Lemma xor_bytes_length (a b : Buffer) :
  length (xor_bytes a b) = min (length a) (length b).
Proof. apply length_zip_with. Qed.

Lemma xor_bytes_cancel (a b : Buffer) :
  length a <= length b -> xor_bytes (xor_bytes a b) b = a.
Proof.
  revert b. induction a as [|x a IH]; intros [|y b] Hlen; cbn in *; try lia; try reflexivity.
  rewrite byte_xor_cancel. f_equal. apply IH. lia.
Qed.

Lemma to_nat_byte_of_nat (n : nat) : n < 256 -> Byte.to_nat (byte_of_nat n) = n.
Proof.
  intros Hn. unfold byte_of_nat. rewrite Nat.mod_small by lia.
  destruct (Byte.of_nat n) as [b|] eqn:E.
  - apply Byte.to_of_nat in E. exact E.
  - apply Byte.of_nat_None_iff in E. lia.
Qed.

Lemma byte_of_N_to_N (b : byte) : byte_of_N (Byte.to_N b) = b.
Proof.
  unfold byte_of_N. pose proof (Byte.to_N_bounded b).
  rewrite N.mod_small by lia. rewrite Byte.of_to_N. reflexivity.
Qed.

(** ** Hexadecimal text *)

Lemma toString_hex_length (buf : Buffer) :
  length (Buffer.toString_hex buf) = 2 * length buf.
Proof.
  unfold Buffer.toString_hex. induction buf as [|b buf IH]; [reflexivity|].
  cbn [flat_map length app]. rewrite IH. lia.
Qed.

Lemma hex_digit_is_hex (n : N) : (n < 16)%N -> is_hex_lower (Buffer.hex_digit n) = true.
Proof.
  intros Hn. unfold Buffer.hex_digit, is_hex_lower.
  destruct (N.ltb_spec n 10).
  - replace (48 <=? 48 + n)%N with true by (symmetry; apply N.leb_le; lia).
    replace (48 + n <=? 57)%N with true by (symmetry; apply N.leb_le; lia).
    reflexivity.
  - replace (97 <=? 87 + n)%N with true by (symmetry; apply N.leb_le; lia).
    replace (87 + n <=? 102)%N with true by (symmetry; apply N.leb_le; lia).
    apply orb_true_r.
Qed.

Lemma toString_hex_digits (buf : Buffer) :
  forallb is_hex_lower (Buffer.toString_hex buf) = true.
Proof.
  unfold Buffer.toString_hex. induction buf as [|b buf IH]; [reflexivity|].
  cbn [flat_map app forallb]. rewrite IH.
  pose proof (Byte.to_N_bounded b) as Hb.
  rewrite !hex_digit_is_hex; [reflexivity | |].
  - apply N.mod_upper_bound. discriminate.
  - apply N.Div0.div_lt_upper_bound. lia.
Qed.

(** ** Base64 *)

Lemma list_ind3 {A} (Q : list A -> Prop) :
  Q [] -> (forall a, Q [a]) -> (forall a b, Q [a; b]) ->
  (forall a b c l, Q l -> Q (a :: b :: c :: l)) ->
  forall l, Q l.
Proof.
  intros H0 H1 H2 H3.
  fix IH 1. intros [|a [|b [|c l]]].
  - exact H0.
  - apply H1.
  - apply H2.
  - apply H3, IH.
Qed.

Lemma sextet_of_char_of_sextet (n : N) :
  (n < 64)%N ->
  Buffer.sextet_of_char (Buffer.char_of_sextet n) = Some n /\
  (Buffer.low_byte (Buffer.char_of_sextet n) =? Buffer.equals_sign)%N = false.
Proof.
  intros Hn.
  assert (Hall : forallb (fun i =>
            bool_decide (Buffer.sextet_of_char (Buffer.char_of_sextet (N.of_nat i))
                         = Some (N.of_nat i)) &&
            negb (Buffer.low_byte (Buffer.char_of_sextet (N.of_nat i))
                  =? Buffer.equals_sign)%N)
            (seq 0 64) = true) by (vm_compute; reflexivity).
  rewrite forallb_forall in Hall.
  assert (Hin : In (N.to_nat n) (seq 0 64)) by (apply in_seq; lia).
  specialize (Hall _ Hin). rewrite N2Nat.id in Hall.
  apply andb_prop in Hall as [H1 H2].
  apply bool_decide_eq_true_1 in H1. apply negb_true_iff in H2. split; assumption.
Qed.

Lemma sextets_cons_char (n : N) (rest : jsstring) :
  (n < 64)%N ->
  Buffer.sextets (Buffer.char_of_sextet n :: rest) = n :: Buffer.sextets rest.
Proof.
  intros Hn. destruct (sextet_of_char_of_sextet n Hn) as [H1 H2].
  cbn [Buffer.sextets]. rewrite H2, H1. reflexivity.
Qed.

Lemma sextets_equals_sign (rest : jsstring) :
  Buffer.sextets (Buffer.equals_sign :: rest) = [].
Proof. reflexivity. Qed.

Ltac div_lia := zify; Z.to_euclidean_division_equations; lia.

Lemma from_base64_toString_base64 (buf : Buffer) :
  Buffer.from_base64 (Buffer.toString_base64 buf) = buf.
Proof.
  unfold Buffer.from_base64.
  induction buf as [|b0|b0 b1|b0 b1 b2 rest IH] using list_ind3.
  - reflexivity.
  - cbn [Buffer.toString_base64]. cbv zeta.
    rewrite <- (byte_of_N_to_N b0) at 3.
    pose proof (Byte.to_N_bounded b0) as H0.
    generalize dependent (Byte.to_N b0). intros n0 H0.
    rewrite !sextets_cons_char by div_lia.
    rewrite sextets_equals_sign. cbn [Buffer.bytes_of_sextets].
    repeat f_equal. div_lia.
  - cbn [Buffer.toString_base64]. cbv zeta.
    rewrite <- (byte_of_N_to_N b0) at 3. rewrite <- (byte_of_N_to_N b1) at 3.
    pose proof (Byte.to_N_bounded b0) as H0. pose proof (Byte.to_N_bounded b1) as H1.
    generalize dependent (Byte.to_N b0). generalize dependent (Byte.to_N b1).
    intros n1 H1 n0 H0.
    rewrite !sextets_cons_char by div_lia.
    rewrite sextets_equals_sign. cbn [Buffer.bytes_of_sextets].
    repeat f_equal; div_lia.
  - cbn [Buffer.toString_base64 app]. cbv zeta.
    rewrite <- (byte_of_N_to_N b0) at 3. rewrite <- (byte_of_N_to_N b1) at 3.
    rewrite <- (byte_of_N_to_N b2) at 3.
    pose proof (Byte.to_N_bounded b0) as H0. pose proof (Byte.to_N_bounded b1) as H1.
    pose proof (Byte.to_N_bounded b2) as H2.
    generalize dependent (Byte.to_N b0). generalize dependent (Byte.to_N b1).
    generalize dependent (Byte.to_N b2).
    intros n2 H2 n1 H1 n0 H0.
    rewrite !sextets_cons_char by div_lia.
    cbn [Buffer.bytes_of_sextets app]. rewrite IH.
    repeat f_equal; div_lia.
Qed.

(** ** AES-256: decrypting a block undoes encrypting it *)

Module AES_facts.
Import AES.

Lemma inv_sbox_sbox (b : byte) : inv_sbox (sbox b) = b.
Proof. destruct b; reflexivity. Qed.

Lemma inv_sub_bytes_sub_bytes (s : Buffer) : inv_sub_bytes (sub_bytes s) = s.
Proof.
  unfold inv_sub_bytes, sub_bytes. induction s as [|b s IH]; [reflexivity|].
  cbn [map]. rewrite inv_sbox_sbox, IH. reflexivity.
Qed.

Lemma inv_shift_rows_shift_rows (s : Buffer) : inv_shift_rows (shift_rows s) = s.
Proof. do 17 (destruct s as [|? s]; [reflexivity|]). reflexivity. Qed.

Lemma shift_rows_length (s : Buffer) : length (shift_rows s) = length s.
Proof. do 17 (destruct s as [|? s]; [reflexivity|]). reflexivity. Qed.

Lemma inv_shift_rows_length (s : Buffer) : length (inv_shift_rows s) = length s.
Proof. do 17 (destruct s as [|? s]; [reflexivity|]). reflexivity. Qed.

Lemma mix_columns_length (s : Buffer) : length (mix_columns s) = length s.
Proof. do 17 (destruct s as [|? s]; [reflexivity|]). reflexivity. Qed.

Lemma inv_mix_columns_length (s : Buffer) : length (inv_mix_columns s) = length s.
Proof. do 17 (destruct s as [|? s]; [reflexivity|]). reflexivity. Qed.

Ltac to_bits a :=
  rewrite <- (Byte.of_bits_to_bits a);
  let b0 := fresh "b" in let b1 := fresh "b" in let b2 := fresh "b" in
  let b3 := fresh "b" in let b4 := fresh "b" in let b5 := fresh "b" in
  let b6 := fresh "b" in let b7 := fresh "b" in
  destruct (Byte.to_bits a) as (b0 & b1 & b2 & b3 & b4 & b5 & b6 & b7).

Lemma inv_mix_column_mix_column (a0 a1 a2 a3 : byte) :
  match mix_column a0 a1 a2 a3 with
  | [c0; c1; c2; c3] => inv_mix_column c0 c1 c2 c3
  | _ => []
  end = [a0; a1; a2; a3].
Proof.
  to_bits a0. to_bits a1. to_bits a2. to_bits a3.
  cbv [mix_column inv_mix_column xor4 mul2 mul3 mul9 mul11 mul13 mul14 xtime byte_xor].
  rewrite !Byte.to_bits_of_bits.
  cbv [xor_bits xtime_bits].
  repeat (f_equal; try btauto).
Qed.

Lemma inv_mix_columns_mix_columns (s : Buffer) : inv_mix_columns (mix_columns s) = s.
Proof.
  do 16 (destruct s as [|? s]; [reflexivity|]).
  destruct s; [|reflexivity].
  pose proof (inv_mix_column_mix_column b b0 b1 b2) as H0.
  pose proof (inv_mix_column_mix_column b3 b4 b5 b6) as H1.
  pose proof (inv_mix_column_mix_column b7 b8 b9 b10) as H2.
  pose proof (inv_mix_column_mix_column b11 b12 b13 b14) as H3.
  cbn [mix_columns mix_column app inv_mix_columns] in *.
  rewrite H0, H1, H2, H3. reflexivity.
Qed.

Lemma round_key_length ws r : length (round_key ws r) = 16.
Proof. reflexivity. Qed.

Lemma add_round_key_length s ws r : length s = 16 -> length (add_round_key s (round_key ws r)) = 16.
Proof. intros H. unfold add_round_key. rewrite xor_bytes_length, H. reflexivity. Qed.

Lemma round_length ws s r : length s = 16 -> length (round ws s r) = 16.
Proof.
  intros H. unfold round. apply add_round_key_length.
  unfold sub_bytes. rewrite mix_columns_length, shift_rows_length, length_map. exact H.
Qed.

Lemma inv_round_length ws s r : length s = 16 -> length (inv_round ws s r) = 16.
Proof.
  intros H. unfold inv_round, inv_sub_bytes.
  rewrite length_map, inv_shift_rows_length, inv_mix_columns_length.
  apply add_round_key_length, H.
Qed.

Lemma inv_round_round ws s r : length s = 16 -> inv_round ws (round ws s r) r = s.
Proof.
  intros H. unfold inv_round, round, add_round_key.
  rewrite xor_bytes_cancel.
  - rewrite inv_mix_columns_mix_columns, inv_shift_rows_shift_rows.
    apply inv_sub_bytes_sub_bytes.
  - unfold sub_bytes. rewrite mix_columns_length, shift_rows_length, length_map, H. reflexivity.
Qed.

Lemma fold_round_length ws rs s :
  length s = 16 -> length (fold_left (round ws) rs s) = 16.
Proof.
  revert s. induction rs as [|r rs IH]; intros s H; [exact H|].
  cbn. apply IH, round_length, H.
Qed.

Lemma fold_inv_round_length ws rs s :
  length s = 16 -> length (fold_left (inv_round ws) rs s) = 16.
Proof.
  revert s. induction rs as [|r rs IH]; intros s H; [exact H|].
  cbn. apply IH, inv_round_length, H.
Qed.

Lemma fold_inv_round_round ws rs s :
  length s = 16 ->
  fold_left (inv_round ws) (rev rs) (fold_left (round ws) rs s) = s.
Proof.
  revert s. induction rs as [|r rs IH]; intros s H; [reflexivity|].
  cbn [rev fold_left]. rewrite fold_left_app. cbn [fold_left].
  rewrite IH by (apply round_length, H). apply inv_round_round, H.
Qed.

Lemma encrypt_block_length key block :
  length block = 16 -> length (encrypt_block key block) = 16.
Proof.
  intros H. unfold encrypt_block. apply add_round_key_length.
  unfold sub_bytes. rewrite shift_rows_length, length_map.
  apply fold_round_length, add_round_key_length, H.
Qed.

Lemma decrypt_block_length key block :
  length block = 16 -> length (decrypt_block key block) = 16.
Proof.
  intros H. unfold decrypt_block. apply add_round_key_length.
  apply fold_inv_round_length. unfold inv_sub_bytes.
  rewrite length_map, inv_shift_rows_length. apply add_round_key_length, H.
Qed.

Lemma decrypt_block_encrypt_block key block :
  length block = 16 -> decrypt_block key (encrypt_block key block) = block.
Proof.
  intros H. unfold decrypt_block, encrypt_block.
  set (ws := expand_key key).
  set (s0 := add_round_key block (round_key ws 0)).
  assert (H0 : length s0 = 16) by (apply add_round_key_length, H).
  set (s13 := fold_left (round ws) (seq 1 13) s0).
  assert (H13 : length s13 = 16) by (apply fold_round_length, H0).
  unfold add_round_key at 2 3.
  rewrite xor_bytes_cancel
    by (unfold sub_bytes; rewrite shift_rows_length, length_map, H13; reflexivity).
  rewrite inv_shift_rows_shift_rows, inv_sub_bytes_sub_bytes.
  unfold s13. rewrite fold_inv_round_round by exact H0.
  unfold s0, add_round_key. apply xor_bytes_cancel. rewrite H. reflexivity.
Qed.

End AES_facts.

(** ** SHA-256 *)

Lemma digest_length (message : Buffer) : length (SHA256.digest message) = 32.
Proof. reflexivity. Qed.

(** ** Cipher block chaining *)

Lemma encrypt_blocks_length n key chain data :
  length chain = 16 -> 16 * n <= length data ->
  length (crypto.encrypt_blocks n key chain data).1 = 16 * n /\
  length (crypto.encrypt_blocks n key chain data).2 = 16.
Proof.
  revert chain data.
  induction n as [|n IH]; intros chain data Hchain Hdata; cbn [crypto.encrypt_blocks].
  - split; [reflexivity | exact Hchain].
  - set (c := AES.encrypt_block key (xor_bytes (take 16 data) chain)).
    assert (Hc : length c = 16).
    { apply AES_facts.encrypt_block_length. rewrite xor_bytes_length, length_take. lia. }
    specialize (IH c (drop 16 data) Hc).
    destruct (crypto.encrypt_blocks n key c (drop 16 data)) as [out chain'].
    cbn [fst snd] in *. rewrite length_drop in IH. rewrite length_app.
    destruct IH as [IH1 IH2]; [lia|]. split; lia.
Qed.

Lemma decrypt_blocks_length n key chain data :
  length chain = 16 -> 16 * n <= length data ->
  length (crypto.decrypt_blocks n key chain data).1 = 16 * n.
Proof.
  revert chain data.
  induction n as [|n IH]; intros chain data Hchain Hdata; cbn [crypto.decrypt_blocks].
  - reflexivity.
  - assert (Hc : length (take 16 data) = 16) by (rewrite length_take; lia).
    specialize (IH (take 16 data) (drop 16 data) Hc).
    destruct (crypto.decrypt_blocks n key (take 16 data) (drop 16 data)) as [out chain'].
    cbn [fst snd] in *. rewrite length_drop in IH. rewrite length_app, xor_bytes_length.
    rewrite AES_facts.decrypt_block_length by assumption. lia.
Qed.

(** Decrypting what [n] rounds of encryption gave, followed by more
    ciphertext, gives back the [n] blocks and goes on from the same chaining
    block. *)
Lemma decrypt_encrypt_blocks n m key chain data more :
  length chain = 16 -> 16 * n <= length data ->
  crypto.decrypt_blocks (n + m) key chain
    ((crypto.encrypt_blocks n key chain data).1 ++ more) =
  (take (16 * n) data ++
     (crypto.decrypt_blocks m key (crypto.encrypt_blocks n key chain data).2 more).1,
   (crypto.decrypt_blocks m key (crypto.encrypt_blocks n key chain data).2 more).2).
Proof.
  revert chain data.
  induction n as [|n IH]; intros chain data Hchain Hdata.
  - cbn [crypto.encrypt_blocks Nat.add fst snd take app Nat.mul].
    destruct (crypto.decrypt_blocks m key chain more); reflexivity.
  - cbn [crypto.encrypt_blocks Nat.add crypto.decrypt_blocks].
    set (x := xor_bytes (take 16 data) chain).
    assert (Hx : length x = 16).
    { unfold x. rewrite xor_bytes_length, length_take. lia. }
    set (c := AES.encrypt_block key x).
    assert (Hc : length c = 16) by (apply AES_facts.encrypt_block_length; assumption).
    specialize (IH c (drop 16 data) Hc).
    rewrite length_drop in IH. specialize (IH ltac:(lia)).
    destruct (crypto.encrypt_blocks n key c (drop 16 data)) as [out chain'] eqn:E.
    cbn [fst snd] in *.
    rewrite <- app_assoc.
    rewrite take_app_length' by lia.
    rewrite drop_app_length' by lia.
    rewrite IH.
    unfold c at 1. rewrite AES_facts.decrypt_block_encrypt_block by assumption.
    unfold x. rewrite xor_bytes_cancel by (rewrite length_take; lia).
    destruct (crypto.decrypt_blocks m key chain' more) as [p2 ch2]. cbn [fst snd].
    f_equal. rewrite app_assoc. f_equal.
    replace (16 * S n) with (16 + 16 * n) by lia.
    apply take_take_drop.
Qed.

Lemma encrypt_blocks_prefix n key chain data extra :
  16 * n <= length data ->
  crypto.encrypt_blocks n key chain (data ++ extra) = crypto.encrypt_blocks n key chain data.
Proof.
  revert chain data. induction n as [|n IH]; intros chain data Hlen; [reflexivity|].
  cbn [crypto.encrypt_blocks]. rewrite take_app_le by lia. rewrite drop_app_le by lia.
  rewrite IH by (rewrite length_drop; lia). reflexivity.
Qed.

Lemma encrypt_blocks_snoc n key chain data :
  crypto.encrypt_blocks (n + 1) key chain data =
  let '(out, chain') := crypto.encrypt_blocks n key chain data in
  let c := AES.encrypt_block key (xor_bytes (take 16 (drop (16 * n) data)) chain') in
  (out ++ c, c).
Proof.
  revert chain data. induction n as [|n IH]; intros chain data.
  - cbn [Nat.add crypto.encrypt_blocks Nat.mul drop app]. rewrite app_nil_r. reflexivity.
  - cbn [Nat.add crypto.encrypt_blocks]. rewrite IH.
    destruct (crypto.encrypt_blocks n key _ (drop 16 data)) as [out chain'].
    rewrite drop_drop. replace (16 + 16 * n) with (16 * S n) by lia.
    cbn zeta. rewrite <- app_assoc. reflexivity.
Qed.

Lemma cbc_encrypt_length key iv data :
  length iv = 16 -> length data mod 16 = 0 ->
  length (cbc_encrypt key iv data) = length data.
Proof.
  intros Hiv Hmod. unfold cbc_encrypt.
  pose proof (Nat.div_mod_eq (length data) 16) as Hdiv.
  destruct (encrypt_blocks_length (length data / 16) key iv data Hiv) as [H _]; [lia|].
  rewrite H. clear H. lia.
Qed.

Lemma cbc_decrypt_length key iv data :
  length iv = 16 -> length data mod 16 = 0 ->
  length (cbc_decrypt key iv data) = length data.
Proof.
  intros Hiv Hmod. unfold cbc_decrypt.
  pose proof (Nat.div_mod_eq (length data) 16) as Hdiv.
  rewrite decrypt_blocks_length by (try assumption; lia). lia.
Qed.

(** CBC decryption undoes CBC encryption of whole blocks. *)
Lemma cbc_decrypt_encrypt key iv data :
  length iv = 16 -> length data mod 16 = 0 ->
  cbc_decrypt key iv (cbc_encrypt key iv data) = data.
Proof.
  intros Hiv Hmod. unfold cbc_decrypt.
  rewrite cbc_encrypt_length by assumption. unfold cbc_encrypt.
  pose proof (Nat.div_mod_eq (length data) 16) as Hdiv.
  remember (length data / 16) as n eqn:En. clear En.
  assert (Hn : 16 * n <= length data) by lia.
  pose proof (decrypt_encrypt_blocks n 0 key iv data [] Hiv Hn) as H.
  rewrite Nat.add_0_r, app_nil_r in H. rewrite H.
  cbn [crypto.decrypt_blocks fst]. rewrite app_nil_r. apply take_ge. lia.
Qed.

(** ** Padding *)

Lemma pad_amount (n : nat) : 1 <= 16 - n mod 16 <= 16.
Proof. pose proof (Nat.mod_upper_bound n 16). lia. Qed.

Lemma pkcs7_pad_length (data : Buffer) :
  length (pkcs7_pad data) = 16 * (length data / 16 + 1).
Proof.
  unfold pkcs7_pad. rewrite length_app, length_replicate.
  pose proof (Nat.div_mod_eq (length data) 16).
  pose proof (Nat.mod_upper_bound (length data) 16). lia.
Qed.

Lemma last_app_nonempty {A} (l k : list A) d :
  k <> [] -> List.last (l ++ k) d = List.last k d.
Proof.
  intros Hk. induction l as [|x l IH]; [reflexivity|].
  cbn [app]. cbn [List.last]. destruct (l ++ k) eqn:E; [|exact IH].
  apply app_eq_nil in E as [_ E]. contradiction.
Qed.

Lemma last_app_replicate (l : Buffer) n x d :
  0 < n -> List.last (l ++ replicate n x) d = x.
Proof.
  intros Hn. destruct n as [|n]; [lia|].
  rewrite replicate_S_end, app_assoc. apply last_last.
Qed.

Lemma forallb_eqb_replicate n (x : byte) : forallb (Byte.eqb x) (replicate n x) = true.
Proof.
  induction n as [|n IH]; cbn; [reflexivity|].
  rewrite IH, andb_true_r. apply Byte.byte_dec_lb. reflexivity.
Qed.

Lemma forallb_eqb_inv (x : byte) (l : Buffer) :
  forallb (Byte.eqb x) l = true -> l = replicate (length l) x.
Proof.
  induction l as [|y l IH]; cbn; [reflexivity|].
  intros H. apply andb_prop in H as [H1 H2].
  apply Byte.byte_dec_bl in H1. subst y. f_equal. apply IH, H2.
Qed.

Lemma pkcs7_unpad_pad (data : Buffer) : pkcs7_unpad (pkcs7_pad data) = Some data.
Proof.
  unfold pkcs7_unpad, pkcs7_pad.
  pose proof (pad_amount (length data)) as Hp.
  set (p := 16 - length data mod 16) in *.
  rewrite last_app_replicate by lia.
  rewrite to_nat_byte_of_nat by lia.
  rewrite length_app, length_replicate.
  replace (p =? 0) with false by (symmetry; apply Nat.eqb_neq; lia).
  replace (16 <? p) with false by (symmetry; apply Nat.ltb_ge; lia).
  replace (length data + p <? p) with false by (symmetry; apply Nat.ltb_ge; lia).
  cbn [orb].
  replace (length data + p - p) with (length data) by lia.
  rewrite drop_app_length, take_app_length, forallb_eqb_replicate. reflexivity.
Qed.

(** The check [decipher.final()] makes on the last block is the one
    [pkcs7_unpad] makes on the whole text. *)
Lemma pkcs7_unpad_last_block (plain : Buffer) :
  16 <= length plain ->
  pkcs7_unpad plain =
  option_map (fun tail => take (length plain - 16) plain ++ tail)
    (crypto.strip_padding (drop (length plain - 16) plain)).
Proof.
  intros Hlen. unfold pkcs7_unpad, crypto.strip_padding.
  assert (Hlast : List.last (drop (length plain - 16) plain) x00 = List.last plain x00).
  { transitivity (List.last (take (length plain - 16) plain ++ drop (length plain - 16) plain) x00);
      [|rewrite take_drop; reflexivity].
    rewrite last_app_nonempty; [reflexivity|].
    intros E. apply (f_equal length) in E. rewrite length_drop in E. cbn in E. lia. }
  rewrite Hlast. set (n := Byte.to_nat (List.last plain x00)).
  destruct (n =? 0) eqn:E0; [reflexivity|].
  destruct (16 <? n) eqn:E16; [reflexivity|].
  apply Nat.ltb_ge in E16.
  replace (length plain <? n) with false by (symmetry; apply Nat.ltb_ge; lia).
  cbn [orb]. rewrite drop_drop.
  replace (length plain - 16 + (16 - n)) with (length plain - n) by lia.
  destruct (forallb _ _); [cbn|reflexivity].
  f_equal. replace (length plain - n) with ((length plain - 16) + (16 - n)) by lia.
  symmetry. apply take_take_drop.
Qed.

(** ** The cipher objects against the one-piece definitions *)

(** [update] then [final] on a new cipher object is CBC over the padded
    input. *)
Lemma cipher_update_final key iv data w :
  let '(body, cipher) := crypto.cipher_update (crypto.mkCipher key iv []) data in
  (last ← crypto.cipher_final cipher; mret (body ++ last)) w =
  (inr (cbc_encrypt key iv (pkcs7_pad data)), w).
Proof.
  unfold crypto.cipher_update, crypto.cipher_final, cbc_encrypt.
  cbn [crypto.c_buf crypto.c_key crypto.c_chain app].
  rewrite pkcs7_pad_length.
  replace (16 * (length data / 16 + 1) / 16) with (length data / 16 + 1)
    by (rewrite Nat.mul_comm, Nat.div_mul; lia).
  pose proof (Nat.div_mod_eq (length data) 16) as Hdiv.
  pose proof (Nat.mod_upper_bound (length data) 16 ltac:(lia)) as Hmod.
  remember (length data / 16) as n eqn:En. clear En.
  rewrite encrypt_blocks_snoc. unfold pkcs7_pad at 1.
  rewrite encrypt_blocks_prefix by lia.
  destruct (crypto.encrypt_blocks n key iv data) as [out chain'].
  cbn [crypto.c_buf crypto.c_key crypto.c_chain fst].
  unfold pkcs7_pad. rewrite drop_app_le by lia.
  rewrite length_drop.
  replace (length data - 16 * n) with (length data mod 16) by lia.
  rewrite take_ge; [reflexivity|].
  rewrite length_app, length_drop, length_replicate. lia.
Qed.

(** [update] then [final] on a new decipher object, for a ciphertext of at
    least one whole block: CBC, then the padding is taken off. *)
Lemma decipher_update_final key iv data w :
  length iv = 16 -> 0 < length data -> length data mod 16 = 0 ->
  let '(body, decipher) := crypto.decipher_update (crypto.mkDecipher key iv [] None) data in
  (last ← crypto.decipher_final decipher; mret (body ++ last)) w =
  match pkcs7_unpad (cbc_decrypt key iv data) with
  | Some plain => (inr plain, w)
  | None => (inl (CryptoError BadDecrypt), w)
  end.
Proof.
  intros Hiv Hpos Hmod.
  unfold crypto.decipher_update.
  destruct data as [|b0 data0] eqn:Edata; [cbn in Hpos; lia|].
  rewrite <- Edata in *. clear Edata b0 data0.
  cbn [crypto.d_buf crypto.d_key crypto.d_chain crypto.d_final app default].
  unfold cbc_decrypt.
  pose proof (Nat.div_mod_eq (length data) 16) as Hdiv.
  remember (length data / 16) as n eqn:En. clear En.
  pose proof (decrypt_blocks_length n key iv data Hiv ltac:(lia)) as Hout.
  destruct (crypto.decrypt_blocks n key iv data) as [out chain'].
  cbn [fst] in *.
  rewrite length_drop.
  replace (length data - 16 * n =? 0) with true by (symmetry; apply Nat.eqb_eq; lia).
  unfold crypto.decipher_final. cbn [crypto.d_final crypto.d_buf length Nat.eqb negb].
  rewrite pkcs7_unpad_last_block by lia.
  destruct (crypto.strip_padding (drop (length out - 16) out)); reflexivity.
Qed.

(** ** [encryptBuffer] and [decryptBuffer] in closed form *)

Lemma next_iv_length w : length (next_iv w) = 16.
Proof. unfold next_iv. rewrite length_map, length_seq. reflexivity. Qed.

(** The envelope is the IV followed by the CBC encryption of the padded
    plaintext. *)
Lemma encryptBuffer_eq this key buffer w :
  _key this = Some key -> length key = 32 ->
  encryptBuffer this buffer w =
  (inr (next_iv w ++ cbc_encrypt key (next_iv w) (pkcs7_pad buffer)), advance 16 w).
Proof.
  intros Hthis Hkey. unfold encryptBuffer. rewrite Hthis.
  unfold mbind, M_bind at 1. unfold crypto.randomBytes. fold (next_iv w). fold (advance 16 w).
  unfold mbind, M_bind at 1. unfold crypto.createCipheriv.
  rewrite next_iv_length, Hkey. cbn [Nat.eqb negb]. unfold mret at 1, M_ret at 1.
  pose proof (cipher_update_final key (next_iv w) buffer (advance 16 w)) as H.
  destruct (crypto.cipher_update _ buffer) as [body cipher].
  unfold mbind, M_bind in *. unfold Buffer.concat. cbn [List.concat].
  destruct (crypto.cipher_final cipher (advance 16 w)) as [[e|last] w'].
  - discriminate H.
  - unfold mret, M_ret in *. injection H as H1 H2. subst w'. rewrite app_nil_r, H1. reflexivity.
Qed.

(** For an envelope of the right shape, decryption is CBC on what follows
    the first 16 bytes, then the padding is taken off. *)
Lemma decryptBuffer_eq this key buffer w :
  _key this = Some key -> length key = 32 ->
  32 <= length buffer -> length buffer mod 16 = 0 ->
  decryptBuffer this buffer w =
  match pkcs7_unpad (cbc_decrypt key (take 16 buffer) (drop 16 buffer)) with
  | Some plain => (inr plain, w)
  | None => (inl (CryptoError BadDecrypt), w)
  end.
Proof.
  intros Hthis Hkey Hlen Hmod. unfold decryptBuffer. rewrite Hthis.
  unfold Buffer.slice_to, Buffer.slice_from.
  unfold mbind, M_bind at 1. unfold crypto.createDecipheriv.
  assert (Hiv : length (take 16 buffer) = 16) by (rewrite length_take; lia).
  rewrite Hiv, Hkey. cbn [Nat.eqb negb]. unfold mret at 1, M_ret at 1.
  assert (Hmod' : length (drop 16 buffer) mod 16 = 0).
  { rewrite length_drop.
    pose proof (Nat.div_mod_eq (length buffer) 16) as Hdiv.
    replace (length buffer - 16) with ((length buffer / 16 - 1) * 16) by lia.
    apply Nat.Div0.mod_mul. }
  pose proof (decipher_update_final key (take 16 buffer) (drop 16 buffer) w Hiv
                ltac:(rewrite length_drop; lia) Hmod') as H.
  destruct (crypto.decipher_update _ (drop 16 buffer)) as [body decipher].
  unfold mbind, M_bind in *. unfold Buffer.concat. cbn [List.concat].
  destruct (crypto.decipher_final decipher w) as [[e|last] w'].
  - exact H.
  - unfold mret, M_ret in *. rewrite app_nil_r. exact H.
Qed.

Lemma envelope_length key (b : Buffer) w :
  length (next_iv w ++ cbc_encrypt key (next_iv w) (pkcs7_pad b))
  = 16 + 16 * (length b / 16 + 1).
Proof.
  rewrite length_app, cbc_encrypt_length, next_iv_length, pkcs7_pad_length;
    [reflexivity | apply next_iv_length |].
  rewrite pkcs7_pad_length, Nat.mul_comm. apply Nat.Div0.mod_mul.
Qed.

(** Decrypting the envelope of [b] gives [b]. *)
Lemma decryptBuffer_of_envelope this key (b : Buffer) w w1 :
  _key this = Some key -> length key = 32 ->
  decryptBuffer this (next_iv w ++ cbc_encrypt key (next_iv w) (pkcs7_pad b)) w1 = (inr b, w1).
Proof.
  intros Hthis Hkey.
  pose proof (next_iv_length w) as Hiv.
  pose proof (envelope_length key b w) as Hlen.
  assert (Hpad : length (pkcs7_pad b) mod 16 = 0).
  { rewrite pkcs7_pad_length, Nat.mul_comm. apply Nat.Div0.mod_mul. }
  rewrite (decryptBuffer_eq this key); try assumption.
  - rewrite take_app_length' by lia. rewrite drop_app_length' by lia.
    rewrite cbc_decrypt_encrypt by assumption.
    rewrite pkcs7_unpad_pad. reflexivity.
  - rewrite Hlen. lia.
  - rewrite Hlen. replace (16 + 16 * (length b / 16 + 1)) with ((length b / 16 + 2) * 16) by lia.
    apply Nat.Div0.mod_mul.
Qed.

(** ** What [decryptBuffer] refuses *)

Lemma decryptBuffer_short this key (envelope : Buffer) w :
  _key this = Some key -> length envelope < 16 ->
  decryptBuffer this envelope w = (inl (CryptoError InvalidIV), w).
Proof.
  intros Hthis Hlen. unfold decryptBuffer. rewrite Hthis.
  unfold Buffer.slice_to, mbind, M_bind, crypto.createDecipheriv.
  rewrite length_take.
  replace (16 `min` length envelope =? 16) with false
    by (symmetry; apply Nat.eqb_neq; lia).
  reflexivity.
Qed.

Lemma decryptBuffer_ragged this key (envelope : Buffer) w :
  _key this = Some key -> length key = 32 ->
  16 <= length envelope -> (length envelope - 16) mod 16 <> 0 ->
  decryptBuffer this envelope w = (inl (CryptoError WrongFinalBlockLength), w).
Proof.
  intros Hthis Hkey Hlen Hmod. unfold decryptBuffer. rewrite Hthis.
  unfold Buffer.slice_to, Buffer.slice_from.
  unfold mbind, M_bind at 1. unfold crypto.createDecipheriv.
  rewrite length_take_le, Hkey by lia. cbn [Nat.eqb negb]. unfold mret at 1, M_ret at 1.
  assert (Hct : length (drop 16 envelope) mod 16 <> 0) by (rewrite length_drop; exact Hmod).
  unfold crypto.decipher_update.
  destruct (drop 16 envelope) as [|c0 ct0] eqn:Ect; [cbn in Hct; lia|].
  rewrite <- Ect in *. clear Ect c0 ct0.
  cbn [crypto.d_buf crypto.d_key crypto.d_chain crypto.d_final app].
  destruct (crypto.decrypt_blocks _ key (take 16 envelope) (drop 16 envelope)) as [out chain'].
  rewrite (length_drop (drop 16 envelope)).
  pose proof (Nat.div_mod_eq (length (drop 16 envelope)) 16) as Hdiv.
  replace (length (drop 16 envelope) - 16 * (length (drop 16 envelope) / 16) =? 0) with false
    by (symmetry; apply Nat.eqb_neq; lia).
  reflexivity.
Qed.

Lemma decryptBuffer_bare_iv this key (envelope : Buffer) w :
  _key this = Some key -> length key = 32 -> length envelope = 16 ->
  decryptBuffer this envelope w = (inl (CryptoError WrongFinalBlockLength), w).
Proof.
  intros Hthis Hkey Hlen. unfold decryptBuffer. rewrite Hthis.
  unfold Buffer.slice_to, Buffer.slice_from.
  unfold mbind, M_bind at 1. unfold crypto.createDecipheriv.
  rewrite length_take_le, Hkey by lia. cbn [Nat.eqb negb]. unfold mret at 1, M_ret at 1.
  rewrite drop_ge by lia. reflexivity.
Qed.

(** ** The file system *)

(** Reading and writing go through [locate]. *)
Lemma FileSystem_lookup_eq (fsys : FileSystem) (path : string) :
  fsys !! path = match locate fsys path with
                 | Some file => contents fsys !! file
                 | None => None
                 end.
Proof. reflexivity. Qed.

Lemma FileSystem_insert_eq (fsys : FileSystem) (path : string) (data : Buffer) :
  <[path := data]> fsys
    = match locate fsys path with
      | Some file => mkFileSystem (locate fsys) (<[file := data]> (contents fsys))
      | None => fsys
      end.
Proof. reflexivity. Qed.

(** After a file has been written at [path], a path to the same file reads
    what was written, and a path to another file, or to none, reads what it
    read before. *)
Lemma lookup_written (fsys : FileSystem) (path alias file : string) (data : Buffer) :
  locate fsys path = Some file -> locate fsys alias = Some file ->
  <[path := data]> fsys !! alias = Some data.
Proof.
  intros Hpath Halias.
  rewrite FileSystem_insert_eq, Hpath, FileSystem_lookup_eq.
  cbn [locate contents]. rewrite Halias. apply lookup_insert_eq.
Qed.

Lemma lookup_written_other (fsys : FileSystem) (path other file : string) (data : Buffer) :
  locate fsys path = Some file -> locate fsys other <> Some file ->
  <[path := data]> fsys !! other = fsys !! other.
Proof.
  intros Hpath Hother.
  rewrite FileSystem_insert_eq, Hpath, !FileSystem_lookup_eq.
  cbn [locate contents].
  destruct (locate fsys other) as [file'|]; [|reflexivity].
  apply lookup_insert_ne. congruence.
Qed.

(** Writing a file changes no path. *)
Lemma locate_written (fsys : FileSystem) (path : string) (data : Buffer) :
  locate (<[path := data]> fsys) = locate fsys.
Proof.
  rewrite FileSystem_insert_eq. destruct (locate fsys path); reflexivity.
Qed.

(** ** The accessors *)

(** The key setter refuses every string whose length is not 64 ... *)
Lemma set_key_wrong_length this (h : jsstring) w :
  length h <> 64 -> set_key this (JString h) w = (inl (Error "Key must be 64 bytes long."), w).
Proof.
  intros Hlen. unfold set_key, get_length, mbind, M_bind, mret, M_ret.
  rewrite bool_decide_eq_false_2 by congruence. reflexivity.
Qed.

(** ... and throws for the others as well. *)
Lemma set_key_right_length this (h : jsstring) w :
  length h = 64 -> set_key this (JString h) w = (inl (TypeError "value.from is not a function"), w).
Proof.
  intros Hlen. unfold set_key, get_length, mbind, M_bind, mret, M_ret.
  rewrite bool_decide_eq_true_2 by congruence. reflexivity.
Qed.

(** A value without a function [from] never gets through the setter. *)
Lemma set_key_without_from this value w :
  without_from value ->
  exists e,
    set_key this value w = (inl e, w) /\
    (e = Error "Key must be 64 bytes long." \/ exists message, e = TypeError message).
Proof.
  unfold without_from, set_key, get_length, mbind, M_bind, mret, M_ret, throw.
  intros Hfrom. rewrite Hfrom.
  destruct value; try (eexists; split; [reflexivity|]; eauto; fail);
    case_bool_decide; eexists; (split; [reflexivity|]); eauto.
Qed.

Lemma set_key_needs_from this value w this' w' :
  without_from value -> set_key this value w <> (inr this', w').
Proof.
  intros Hfrom Hstep.
  destruct (set_key_without_from this value w Hfrom) as (e & He & _).
  rewrite He in Hstep. discriminate Hstep.
Qed.

(** A key has 32 bytes, as long as the setter is handed no function
    [from]. *)
Lemma key_has_32_bytes this key :
  reachable without_from this -> _key this = Some key -> length key = 32.
Proof.
  intros Hreach. revert key.
  induction Hreach as [|this w hex this' w' _ IH Hstep
                      |this value w this' w' Hfrom _ IH Hstep
                      |this value w this' w' _ IH Hstep]; intros key Hkey.
  - discriminate Hkey.
  - unfold randomKey, mbind, M_bind, crypto.randomBytes, mret, M_ret in Hstep.
    injection Hstep as _ <- _. cbn [_key] in Hkey. injection Hkey as <-.
    reflexivity.
  - exfalso. exact (set_key_needs_from _ _ _ _ _ Hfrom Hstep).
  - unfold set_password in Hstep. destruct value; try discriminate Hstep.
    destruct (length s =? 0); [discriminate Hstep|].
    injection Hstep as <- _. cbn [_key] in Hkey. injection Hkey as <-.
    apply digest_length.
Qed.

(** With a key set the getter returns it as 64 characters out of
    [0-9a-f]. *)
Lemma get_key_with_key this key w :
  _key this = Some key -> length key = 32 ->
  get_key this w = (inr (Buffer.toString_hex key), w) /\
  length (Buffer.toString_hex key) = 64 /\
  forallb is_hex_lower (Buffer.toString_hex key) = true.
Proof.
  intros Hthis Hkey. unfold get_key. rewrite Hthis.
  rewrite toString_hex_length, Hkey, toString_hex_digits. repeat split.
Qed.

(** [randomKey] sets 32 bytes of the random source as the key and returns
    them as 64 characters. *)
Lemma randomKey_returns this w :
  exists hex key,
    randomKey this w = (inr (hex, mkTopSecret (Some key) (_password this)), advance 32 w) /\
    length key = 32 /\ hex = Buffer.toString_hex key /\ length hex = 64.
Proof.
  eexists _, _. split; [reflexivity|].
  rewrite toString_hex_length, length_map, length_seq. repeat split.
Qed.

(** What the class has in place of [encryptFile] and [decryptFile]:
    [saveBufferToFile] writes the envelope of a buffer to a file, and
    [loadBufferFromFile] returns the buffer from that file. *)
Lemma loadBufferFromFile_saveBufferToFile this key (filename : string) (b : Buffer) w :
  _key this = Some key -> length key = 32 ->
  is_Some (locate (files w) filename) ->
  exists w',
    saveBufferToFile this filename b w = (inr tt, w') /\
    loadBufferFromFile this filename w' = (inr b, w').
Proof.
  intros Hthis Hkey [file Hfile].
  eexists. unfold saveBufferToFile, loadBufferFromFile, try_catch, mbind, M_bind.
  rewrite (encryptBuffer_eq this key) by assumption.
  unfold fs.writeFileSync, advance. cbn [files]. rewrite Hfile. split; [reflexivity|].
  unfold fs.readFileSync. cbn [files].
  rewrite (lookup_written _ _ _ _ _ Hfile Hfile).
  rewrite (decryptBuffer_of_envelope this key) by assumption. reflexivity.
Qed.

(** Every instance that can arise without a function [from] round-trips:
    its key, if it has one, has the 32 bytes the cipher asks for. *)
Lemma decryptBuffer_encryptBuffer_reachable this key (b : Buffer) w w1 :
  reachable without_from this -> _key this = Some key ->
  exists envelope w',
    encryptBuffer this b w = (inr envelope, w') /\
    decryptBuffer this envelope w1 = (inr b, w1).
Proof.
  intros Hreach Hthis.
  pose proof (key_has_32_bytes this key Hreach Hthis) as Hkey.
  exists (next_iv w ++ cbc_encrypt key (next_iv w) (pkcs7_pad b)), (advance 16 w).
  split; [apply encryptBuffer_eq | apply decryptBuffer_of_envelope]; assumption.
Qed.

(** ** The platform [literals] keeps the law *)

Lemma literals_json_text_survives_utf8 : json_text_survives_utf8 (P := literals).
Proof. intros [[|]|]; reflexivity. Qed.

(** ** JSON values *)

(** What [decryptJSON] makes of what [encryptJSON] returned. *)
Lemma decryptJSON_encryptJSON_eq `{P : Platform} this key (v : JSONValue) w w1 :
  _key this = Some key -> length key = 32 ->
  exists text w',
    encryptJSON this v w = (inr text, w') /\
    decryptJSON this text w1
      = match JSON_parse (utf8_decode (Buffer.from_utf8 (JSON_stringify v))) with
        | Some v' => (inr v', w1)
        | None => (inl SyntaxError, w1)
        end.
Proof.
  intros Hthis Hkey.
  set (plain := Buffer.from_utf8 (JSON_stringify v)).
  exists (Buffer.toString_base64 (next_iv w ++ cbc_encrypt key (next_iv w) (pkcs7_pad plain))),
    (advance 16 w).
  unfold encryptJSON, decryptJSON. rewrite Hthis. fold plain.
  unfold mbind, M_bind.
  rewrite (encryptBuffer_eq this key) by assumption.
  split; [reflexivity|].
  rewrite from_base64_toString_base64.
  rewrite (decryptBuffer_of_envelope this key) by assumption.
  destruct (JSON_parse (utf8_decode plain)); reflexivity.
Qed.

(** ** The claims *)

(** C1.  With a 256-bit key set, [encryptBuffer] returns an envelope for
    every byte sequence, and [decryptBuffer] on the same instance turns that
    envelope back into the byte sequence. *)
Theorem C1_decryptBuffer_encryptBuffer this key (b : Buffer) w w1 :
  _key this = Some key -> length key = 32 ->
  exists envelope w',
    encryptBuffer this b w = (inr envelope, w') /\
    decryptBuffer this envelope w1 = (inr b, w1).
Proof.
  intros Hthis Hkey.
  exists (next_iv w ++ cbc_encrypt key (next_iv w) (pkcs7_pad b)), (advance 16 w).
  split; [apply encryptBuffer_eq; assumption|].
  apply decryptBuffer_of_envelope; assumption.
Qed.

Lemma C1_witness :
  exists envelope w',
    encryptBuffer sample sample_block counting = (inr envelope, w') /\
    decryptBuffer sample envelope counting = (inr sample_block, counting).
Proof.
  apply (C1_decryptBuffer_encryptBuffer sample sample_key sample_block counting counting);
    reflexivity.
Defined.

(** C10.  With a 256-bit key set, the envelope for a plaintext of [n] bytes
    has [16 + 16 * (n / 16 + 1)] bytes: at least 32, and a multiple of 16. *)
Theorem C10_envelope_length this key (b : Buffer) w :
  _key this = Some key -> length key = 32 ->
  exists envelope w',
    encryptBuffer this b w = (inr envelope, w') /\
    length envelope = 16 + 16 * (length b / 16 + 1) /\
    32 <= length envelope /\
    length envelope mod 16 = 0.
Proof.
  intros Hthis Hkey.
  exists (next_iv w ++ cbc_encrypt key (next_iv w) (pkcs7_pad b)), (advance 16 w).
  split; [apply encryptBuffer_eq; assumption|].
  rewrite envelope_length.
  split; [reflexivity|]. split; [lia|].
  replace (16 + 16 * (length b / 16 + 1)) with ((length b / 16 + 2) * 16) by lia.
  apply Nat.Div0.mod_mul.
Qed.

Lemma C10_witness :
  exists envelope w',
    encryptBuffer sample (replicate 20 x07) counting = (inr envelope, w') /\
    length envelope = 16 + 16 * (20 / 16 + 1) /\
    32 <= length envelope /\
    length envelope mod 16 = 0.
Proof.
  apply (C10_envelope_length sample sample_key (replicate 20 x07) counting); reflexivity.
Defined.

(** C4.  On a newly constructed instance each of [encryptBuffer],
    [decryptBuffer], [encryptJSON] and [decryptJSON] throws the error "Key is
    not set.", a precondition error, whatever it is given, and leaves the
    world as it was. *)
Theorem C4_no_key_is_refused `{P : Platform} (b : Buffer) (v : JSONValue) (s : jsstring) w :
  encryptBuffer constructor b w = (inl (Error "Key is not set."), w) /\
  decryptBuffer constructor b w = (inl (Error "Key is not set."), w) /\
  encryptJSON constructor v w = (inl (Error "Key is not set."), w) /\
  decryptJSON constructor s w = (inl (Error "Key is not set."), w) /\
  classify (Error "Key is not set.") = Some PreconditionError.
Proof. repeat split. Qed.

(** C8.  With a 256-bit key set, [decryptBuffer] throws an error of the
    [crypto] module, a decryption error, and leaves the world as it was, for
    every envelope that is shorter than 16 bytes, or whose part after the
    first 16 bytes is not a multiple of 16 bytes long, or whose CBC
    decryption does not end in valid padding. *)
Theorem C8_malformed_envelope_is_refused this key (envelope : Buffer) w :
  _key this = Some key -> length key = 32 ->
  length envelope < 16 \/
  (length envelope - 16) mod 16 <> 0 \/
  pkcs7_unpad (cbc_decrypt key (take 16 envelope) (drop 16 envelope)) = None ->
  (exists why, decryptBuffer this envelope w = (inl (CryptoError why), w)) /\
  fails_with DecryptionError (decryptBuffer this envelope w).
Proof.
  intros Hthis Hkey Hbad.
  assert (H : exists why, decryptBuffer this envelope w = (inl (CryptoError why), w)).
  { destruct (Nat.lt_ge_cases (length envelope) 16) as [Hshort|Hlong].
    { eexists. apply (decryptBuffer_short this key); assumption. }
    destruct (Nat.eq_dec ((length envelope - 16) mod 16) 0) as [Hmod|Hmod].
    2:{ eexists. apply (decryptBuffer_ragged this key); assumption. }
    destruct (Nat.eq_dec (length envelope) 16) as [H16|H16].
    { eexists. apply (decryptBuffer_bare_iv this key); assumption. }
    destruct Hbad as [Hbad|[Hbad|Hbad]]; [lia | contradiction |].
    assert (Hmod' : length envelope mod 16 = 0).
    { pose proof (Nat.div_mod_eq (length envelope - 16) 16) as Hdiv.
      replace (length envelope) with (((length envelope - 16) / 16 + 1) * 16) by lia.
      apply Nat.Div0.mod_mul. }
    assert (H32 : 32 <= length envelope).
    { pose proof (Nat.div_mod_eq (length envelope) 16) as Hdiv.
      destruct (length envelope / 16) as [|[|q]]; lia. }
    eexists. rewrite (decryptBuffer_eq this key) by assumption.
    rewrite Hbad. reflexivity. }
  split; [exact H|].
  destruct H as [why H]. exists (CryptoError why). rewrite H. split; reflexivity.
Qed.

Lemma C8_witness :
  (exists why, decryptBuffer sample (replicate 32 x00) counting
               = (inl (CryptoError why), counting)) /\
  fails_with DecryptionError (decryptBuffer sample (replicate 32 x00) counting).
Proof.
  apply (C8_malformed_envelope_is_refused sample sample_key (replicate 32 x00) counting);
    [reflexivity | reflexivity | right; right; vm_compute; reflexivity].
Defined.

(** C7, as the code has it.  With a 256-bit key set, two calls of
    [encryptBuffer] on the same plaintext, one after the other, each take
    their IV from 16 bytes of the random source that no call before has
    read, and put it first in the envelope.  The two envelopes differ exactly
    when the two IVs differ, and both decrypt to the plaintext. *)
Theorem C7_two_encryptions this key (b : Buffer) w w1 :
  _key this = Some key -> length key = 32 ->
  exists e1 e2,
    encryptBuffer this b w = (inr e1, advance 16 w) /\
    encryptBuffer this b (advance 16 w) = (inr e2, advance 16 (advance 16 w)) /\
    take 16 e1 = map (entropy w) (seq (cursor w) 16) /\
    take 16 e2 = map (entropy w) (seq (cursor w + 16) 16) /\
    (e1 <> e2 <-> take 16 e1 <> take 16 e2) /\
    decryptBuffer this e1 w1 = (inr b, w1) /\
    decryptBuffer this e2 w1 = (inr b, w1).
Proof.
  intros Hthis Hkey.
  pose proof (encryptBuffer_eq this key b w Hthis Hkey) as E1.
  pose proof (encryptBuffer_eq this key b (advance 16 w) Hthis Hkey) as E2.
  pose proof (decryptBuffer_of_envelope this key b w w1 Hthis Hkey) as D1.
  pose proof (decryptBuffer_of_envelope this key b (advance 16 w) w1 Hthis Hkey) as D2.
  eexists _, _. split; [exact E1|]. split; [exact E2|].
  rewrite !take_app_length' by (rewrite next_iv_length; reflexivity).
  split; [reflexivity|]. split; [reflexivity|].
  split; [|split; assumption].
  split.
  - intros Hne Hiv. apply Hne. rewrite Hiv. reflexivity.
  - intros Hne Heq. apply Hne. apply (f_equal (take 16)) in Heq.
    rewrite !take_app_length' in Heq by (rewrite next_iv_length; reflexivity).
    exact Heq.
Qed.

Lemma C7_witness :
  exists e1 e2,
    encryptBuffer sample sample_block counting = (inr e1, advance 16 counting) /\
    encryptBuffer sample sample_block (advance 16 counting)
      = (inr e2, advance 16 (advance 16 counting)) /\
    take 16 e1 = map (entropy counting) (seq (cursor counting) 16) /\
    take 16 e2 = map (entropy counting) (seq (cursor counting + 16) 16) /\
    (e1 <> e2 <-> take 16 e1 <> take 16 e2) /\
    decryptBuffer sample e1 counting = (inr sample_block, counting) /\
    decryptBuffer sample e2 counting = (inr sample_block, counting).
Proof.
  apply (C7_two_encryptions sample sample_key sample_block counting counting); reflexivity.
Defined.

(** C7 as stated fails: when the random source gives the same 16 bytes
    twice, the two calls return the same envelope. *)
Lemma C7_counterexample :
  exists envelope,
    encryptBuffer sample sample_block stuck = (inr envelope, advance 16 stuck) /\
    encryptBuffer sample sample_block (advance 16 stuck)
      = (inr envelope, advance 16 (advance 16 stuck)).
Proof.
  exists (next_iv stuck ++ cbc_encrypt sample_key (next_iv stuck) (pkcs7_pad sample_block)).
  split; [apply encryptBuffer_eq; reflexivity|].
  rewrite (encryptBuffer_eq sample sample_key) by reflexivity.
  change (next_iv (advance 16 stuck)) with (next_iv stuck). reflexivity.
Qed.

(** C5, as the code has it.  With a 256-bit key set, [encryptJSON] returns
    a text for every value [JSON.stringify] accepts, and [decryptJSON] on the
    same instance gives what [JSON.parse] makes of the JSON text of the
    value, carried through UTF-8: it returns what [JSON.parse] returns and
    throws a [SyntaxError] where [JSON.parse] throws.  That is the value
    itself for every value whose JSON text [JSON.parse] turns back into
    it. *)
Theorem C5_decryptJSON_encryptJSON `{P : Platform} this key (v : JSONValue) w w1 :
  _key this = Some key -> length key = 32 ->
  exists text w',
    encryptJSON this v w = (inr text, w') /\
    decryptJSON this text w1
      = match JSON_parse (utf8_decode (Buffer.from_utf8 (JSON_stringify v))) with
        | Some v' => (inr v', w1)
        | None => (inl SyntaxError, w1)
        end /\
    (utf8_decode (Buffer.from_utf8 (JSON_stringify v)) = JSON_stringify v ->
     JSON_parse (JSON_stringify v) = Some v ->
     decryptJSON this text w1 = (inr v, w1)).
Proof.
  intros Hthis Hkey.
  destruct (decryptJSON_encryptJSON_eq this key v w w1 Hthis Hkey) as (text & w' & He & Hd).
  exists text, w'. split; [exact He|]. split; [exact Hd|].
  intros Hutf8 Hjson. rewrite Hd, Hutf8, Hjson. reflexivity.
Qed.

Lemma C5_witness :
  exists text w',
    @encryptJSON literals sample (Some true) counting = (inr text, w') /\
    @decryptJSON literals sample text counting = (inr (Some true), counting).
Proof.
  destruct (C5_decryptJSON_encryptJSON (P := literals) sample sample_key (Some true)
              counting counting eq_refl eq_refl) as (text & w' & He & _ & Hv).
  exists text, w'. split; [exact He|]. apply Hv; reflexivity.
Defined.

(** C5 as stated fails: [JSON.stringify] accepts the number [NaN] and writes
    it as [null]; what comes back is [null], not [NaN]. *)
Lemma C5_counterexample :
  exists text w',
    @encryptJSON literals_and_NaN sample NaN counting = (inr text, w') /\
    @decryptJSON literals_and_NaN sample text counting = (inr (Literal None), counting) /\
    Literal None <> NaN.
Proof.
  destruct (decryptJSON_encryptJSON_eq (P := literals_and_NaN) sample sample_key NaN
              counting counting eq_refl eq_refl) as (text & w' & He & Hd).
  exists text, w'. split; [exact He|]. split; [exact Hd|]. discriminate.
Qed.

(** C6.  For a non-empty string the password setter succeeds on every
    instance, makes the SHA-256 digest of the UTF-8 bytes of the string the
    key, 32 bytes, and keeps the string; so two instances given the same
    password hold the same key.  For the empty string and for a value that is
    not a string it throws "Password must be a non-empty string.", a
    validation error. *)
Theorem C6_set_password this1 this2 (p : jsstring) (value : jsval) w1 w2 :
  p <> [] ->
  value = JString [] \/ typeof_is_string value = false ->
  let key := SHA256.digest (Buffer.from_utf8 p) in
  set_password this1 (JString p) w1 = (inr (mkTopSecret (Some key) (Some p)), w1) /\
  set_password this2 (JString p) w2 = (inr (mkTopSecret (Some key) (Some p)), w2) /\
  length key = 32 /\
  set_password this1 value w1 = (inl (Error "Password must be a non-empty string."), w1) /\
  fails_with ValidationError (set_password this1 value w1).
Proof.
  intros Hp Hvalue key.
  assert (Hset : forall this w,
             set_password this (JString p) w = (inr (mkTopSecret (Some key) (Some p)), w)).
  { intros this w. unfold set_password. destruct p; [contradiction|reflexivity]. }
  assert (Hbad : set_password this1 value w1
                 = (inl (Error "Password must be a non-empty string."), w1)).
  { destruct Hvalue as [->|Hvalue]; [reflexivity|].
    destruct value; try reflexivity. discriminate Hvalue. }
  repeat split; [apply Hset | apply Hset | exact Hbad |].
  eexists. rewrite Hbad. split; reflexivity.
Qed.

Lemma C6_witness :
  let key := SHA256.digest (Buffer.from_utf8 (js "hunter2")) in
  set_password constructor (JString (js "hunter2")) counting
    = (inr (mkTopSecret (Some key) (Some (js "hunter2"))), counting) /\
  set_password sample (JString (js "hunter2")) stuck
    = (inr (mkTopSecret (Some key) (Some (js "hunter2"))), stuck) /\
  length key = 32 /\
  set_password constructor (JNumber 7) counting
    = (inl (Error "Password must be a non-empty string."), counting) /\
  fails_with ValidationError (set_password constructor (JNumber 7) counting).
Proof.
  apply (C6_set_password constructor sample (js "hunter2") (JNumber 7) counting stuck);
    [discriminate | right; reflexivity].
Defined.

(** C3.  On a newly constructed instance the key getter throws the
    [TypeError] of reading a property of [null]; that is not the error "Key
    is not set." of the other members. *)
Theorem C3_get_key_without_key w :
  get_key constructor w
    = (inl (TypeError "Cannot read properties of null (reading 'toString')"), w) /\
  ~ fails_with PreconditionError (get_key constructor w).
Proof.
  split; [reflexivity|].
  intros (e & He & Hkind). cbn in He. injection He as <-. discriminate Hkind.
Qed.

(** C2.  Given 64 hexadecimal characters the key setter throws a
    [TypeError], on every instance: the string has no member [from]. *)
Theorem C2_set_key_64_hex_characters this w :
  set_key this (JString (js "000102030405060708090a0b0c0d0e0f101112131415161718191a1b1c1d1e1f")) w
    = (inl (TypeError "value.from is not a function"), w).
Proof. reflexivity. Qed.

(** C9.  The class has no member [encryptFile] and no member
    [decryptFile]: calling either throws a [TypeError], and nothing is read
    or written. *)
Theorem C9_encryptFile_decryptFile_missing {A}
    (declared : member -> M A) (inherited : string -> M A) w :
  call "encryptFile" declared inherited w
    = (inl (TypeError "encryptFile is not a function"), w) /\
  call "decryptFile" declared inherited w
    = (inl (TypeError "decryptFile is not a function"), w).
Proof. split; reflexivity. Qed.

(** * Further properties *)

(** ** Keys and passwords *)

(** X1.  On every instance and in every world [randomKey] makes the next 32
    bytes of the random source the key, leaves the password as it is, and
    returns the key as 64 characters out of [0-9a-f]; nothing but the random
    source moves. *)
Theorem X1_randomKey this w :
  let key := map (entropy w) (seq (cursor w) 32) in
  randomKey this w
    = (inr (Buffer.toString_hex key, mkTopSecret (Some key) (_password this)), advance 32 w) /\
  length key = 32 /\
  length (Buffer.toString_hex key) = 64 /\
  forallb is_hex_lower (Buffer.toString_hex key) = true.
Proof.
  intros key. split; [reflexivity|].
  assert (Hkey : length key = 32) by (unfold key; rewrite length_map, length_seq; reflexivity).
  rewrite toString_hex_length, Hkey, toString_hex_digits. repeat split.
Qed.

(** What holds besides of every instance that arises without a function
    [from]: a password is never empty, and where there is a password there
    is a key. *)
Lemma password_invariant this p :
  reachable without_from this -> _password this = Some p -> p <> [] /\ is_Some (_key this).
Proof.
  intros Hreach. revert p.
  induction Hreach as [|this w hex this' w' _ IH Hstep
                      |this value w this' w' Hfrom _ IH Hstep
                      |this value w this' w' _ IH Hstep]; intros p Hp.
  - discriminate Hp.
  - unfold randomKey, mbind, M_bind, crypto.randomBytes, mret, M_ret in Hstep.
    injection Hstep as _ <- _. cbn [_password _key] in *.
    split; [apply (IH p Hp) | eexists; reflexivity].
  - exfalso. exact (set_key_needs_from _ _ _ _ _ Hfrom Hstep).
  - unfold set_password in Hstep. destruct value; try discriminate Hstep.
    destruct s as [|c s]; [discriminate Hstep|].
    cbn [length Nat.eqb] in Hstep.
    injection Hstep as <- _. cbn [_password _key] in *. injection Hp as <-.
    split; [discriminate | eexists; reflexivity].
Qed.

(** X2.  An invariant of the class, for as long as the key setter is handed
    no function [from]: strings, numbers, booleans, buffers, [null],
    [undefined] and objects without one.  On every instance reached from a
    new one through [randomKey], the key setter and the password setter, a
    key has 32 bytes, a password is not empty, and an instance with a
    password has a key.  (X4 shows what a function [from] does to this.) *)
Theorem X2_instance_invariant this :
  reachable without_from this ->
  (forall key, _key this = Some key -> length key = 32) /\
  (forall p, _password this = Some p -> p <> [] /\ is_Some (_key this)).
Proof.
  intros Hreach. split.
  - intros key. apply key_has_32_bytes, Hreach.
  - intros p. apply password_invariant, Hreach.
Qed.

Lemma X2_witness :
  (forall key, _key (mkTopSecret (Some (SHA256.digest (Buffer.from_utf8 (js "hunter2"))))
                                 (Some (js "hunter2"))) = Some key -> length key = 32) /\
  (forall p, _password (mkTopSecret (Some (SHA256.digest (Buffer.from_utf8 (js "hunter2"))))
                                    (Some (js "hunter2"))) = Some p ->
             p <> [] /\
             is_Some (_key (mkTopSecret (Some (SHA256.digest (Buffer.from_utf8 (js "hunter2"))))
                                        (Some (js "hunter2"))))).
Proof.
  apply (X2_instance_invariant
           (mkTopSecret (Some (SHA256.digest (Buffer.from_utf8 (js "hunter2"))))
                        (Some (js "hunter2")))).
  apply (reach_set_password without_from constructor (JString (js "hunter2")) counting
           _ counting);
    [apply reach_new | reflexivity].
Defined.

(** X3.  On every instance that has a key and has arisen without a function
    [from] handed to the key setter, the key getter returns the key as 64
    characters out of [0-9a-f], and changes nothing. *)
Theorem X3_get_key_of_reachable this key w :
  reachable without_from this -> _key this = Some key ->
  get_key this w = (inr (Buffer.toString_hex key), w) /\
  length (Buffer.toString_hex key) = 64 /\
  forallb is_hex_lower (Buffer.toString_hex key) = true.
Proof.
  intros Hreach Hthis. apply get_key_with_key; [exact Hthis|].
  apply (key_has_32_bytes this key Hreach Hthis).
Qed.

Lemma X3_witness :
  get_key (mkTopSecret (Some (map (entropy counting) (seq (cursor counting) 32))) None) stuck
    = (inr (Buffer.toString_hex (map (entropy counting) (seq (cursor counting) 32))), stuck) /\
  length (Buffer.toString_hex (map (entropy counting) (seq (cursor counting) 32))) = 64 /\
  forallb is_hex_lower (Buffer.toString_hex (map (entropy counting) (seq (cursor counting) 32)))
    = true.
Proof.
  apply (X3_get_key_of_reachable
           (mkTopSecret (Some (map (entropy counting) (seq (cursor counting) 32))) None)
           (map (entropy counting) (seq (cursor counting) 32)) stuck);
    [|reflexivity].
  apply (reach_randomKey without_from constructor counting
           (Buffer.toString_hex (map (entropy counting) (seq (cursor counting) 32)))
           _ (advance 32 counting));
    [apply reach_new | reflexivity].
Defined.


(** X5.  [topSecret.key = topSecret.randomKey], with which four of the five
    tests begin: [randomKey] returns, and the key setter given what it
    returned throws a [TypeError], on every instance and in every world. *)
Theorem X5_key_from_randomKey this w :
  exists hex this',
    randomKey this w = (inr (hex, this'), advance 32 w) /\
    set_key this' (JString hex) (advance 32 w)
      = (inl (TypeError "value.from is not a function"), advance 32 w).
Proof.
  eexists _, _. split; [reflexivity|].
  apply set_key_right_length.
  rewrite toString_hex_length, length_map, length_seq. reflexivity.
Qed.

(** X6.  The password getter gives [null] on a new instance and, after the
    password setter has taken a non-empty string, that string.  [randomKey]
    replaces the key and leaves the password: the getter then still gives the
    string, though the key no longer comes from it. *)
Theorem X6_password_outlives_key this (p : jsstring) w :
  p <> [] ->
  get_password constructor = None /\
  exists this1 hex this2,
    set_password this (JString p) w = (inr this1, w) /\
    get_password this1 = Some p /\
    _key this1 = Some (SHA256.digest (Buffer.from_utf8 p)) /\
    randomKey this1 w = (inr (hex, this2), advance 32 w) /\
    get_password this2 = Some p /\
    _key this2 = Some (map (entropy w) (seq (cursor w) 32)).
Proof.
  intros Hp. split; [reflexivity|].
  eexists _, _, _. unfold set_password. destruct p as [|c p]; [contradiction|].
  cbn [length Nat.eqb]. repeat split.
Qed.

Lemma X6_witness :
  get_password constructor = None /\
  exists this1 hex this2,
    set_password sample (JString (js "hunter2")) counting = (inr this1, counting) /\
    get_password this1 = Some (js "hunter2") /\
    _key this1 = Some (SHA256.digest (Buffer.from_utf8 (js "hunter2"))) /\
    randomKey this1 counting = (inr (hex, this2), advance 32 counting) /\
    get_password this2 = Some (js "hunter2") /\
    _key this2 = Some (map (entropy counting) (seq (cursor counting) 32)).
Proof.
  apply (X6_password_outlives_key sample (js "hunter2") counting). discriminate.
Defined.

(** X7.  Two instances that were given the same non-empty password, whatever
    they held before, work together: what one encrypts the other
    decrypts. *)
Theorem X7_same_password_same_key this1 this2 (p : jsstring) (b : Buffer) w1 w2 w w' :
  p <> [] ->
  exists sender receiver envelope w'',
    set_password this1 (JString p) w1 = (inr sender, w1) /\
    set_password this2 (JString p) w2 = (inr receiver, w2) /\
    encryptBuffer sender b w = (inr envelope, w'') /\
    decryptBuffer receiver envelope w' = (inr b, w').
Proof.
  intros Hp.
  set (key := SHA256.digest (Buffer.from_utf8 p)).
  exists (mkTopSecret (Some key) (Some p)), (mkTopSecret (Some key) (Some p)),
    (next_iv w ++ cbc_encrypt key (next_iv w) (pkcs7_pad b)), (advance 16 w).
  assert (Hset : forall this v, set_password this (JString p) v
                                = (inr (mkTopSecret (Some key) (Some p)), v)).
  { intros this v. unfold set_password. destruct p; [contradiction|reflexivity]. }
  split; [apply Hset|]. split; [apply Hset|].
  split; [apply encryptBuffer_eq | apply decryptBuffer_of_envelope];
    first [reflexivity | apply digest_length].
Qed.

Lemma X7_witness :
  exists sender receiver envelope w'',
    set_password constructor (JString (js "hunter2")) counting = (inr sender, counting) /\
    set_password sample (JString (js "hunter2")) stuck = (inr receiver, stuck) /\
    encryptBuffer sender sample_block counting = (inr envelope, w'') /\
    decryptBuffer receiver envelope stuck = (inr sample_block, stuck).
Proof.
  apply (X7_same_password_same_key constructor sample (js "hunter2") sample_block
           counting stuck counting stuck).
  discriminate.
Defined.

(** ** Buffers *)

(** X8.  The layout of an envelope.  With a 256-bit key set, [encryptBuffer]
    reads exactly 16 bytes of the random source, its IV, and returns the IV
    followed by the CBC encryption under that IV of the plaintext padded
    after PKCS#7; files and console stay as they are. *)
Theorem X8_envelope_layout this key (b : Buffer) w :
  _key this = Some key -> length key = 32 ->
  exists envelope w',
    encryptBuffer this b w = (inr envelope, w') /\
    take 16 envelope = map (entropy w) (seq (cursor w) 16) /\
    drop 16 envelope = cbc_encrypt key (take 16 envelope) (pkcs7_pad b) /\
    cursor w' = cursor w + 16 /\
    files w' = files w /\ console w' = console w.
Proof.
  intros Hthis Hkey.
  exists (next_iv w ++ cbc_encrypt key (next_iv w) (pkcs7_pad b)), (advance 16 w).
  split; [apply encryptBuffer_eq; assumption|].
  rewrite take_app_length', drop_app_length' by (rewrite next_iv_length; reflexivity).
  repeat split.
Qed.

Lemma X8_witness :
  exists envelope w',
    encryptBuffer sample sample_block counting = (inr envelope, w') /\
    take 16 envelope = map (entropy counting) (seq (cursor counting) 16) /\
    drop 16 envelope = cbc_encrypt sample_key (take 16 envelope) (pkcs7_pad sample_block) /\
    cursor w' = cursor counting + 16 /\
    files w' = files counting /\ console w' = console counting.
Proof.
  apply (X8_envelope_layout sample sample_key sample_block counting); reflexivity.
Defined.

(** [decryptBuffer] leaves the world as it was, whatever the instance and
    the input. *)
Lemma decryptBuffer_world this (envelope : Buffer) w : (decryptBuffer this envelope w).2 = w.
Proof.
  unfold decryptBuffer. destruct (_key this) as [key|]; [|reflexivity].
  unfold mbind, M_bind at 1. unfold crypto.createDecipheriv.
  destruct (negb (length (Buffer.slice_to 16 envelope) =? 16)); [reflexivity|].
  destruct (negb (length key =? 32)); [reflexivity|].
  unfold mret at 1, M_ret at 1.
  destruct (crypto.decipher_update _ _) as [body decipher].
  unfold mbind, M_bind, crypto.decipher_final.
  destruct (crypto.d_final decipher) as [block|]; [|reflexivity].
  destruct (negb (length (crypto.d_buf decipher) =? 0)); [reflexivity|].
  destruct (crypto.strip_padding block); reflexivity.
Qed.

(** With a 256-bit key set, what [decryptBuffer] does with an envelope of
    each shape. *)
Lemma decryptBuffer_cases this key (envelope : Buffer) w :
  _key this = Some key -> length key = 32 ->
  decryptBuffer this envelope w =
  if (32 <=? length envelope) && (length envelope mod 16 =? 0)
  then match pkcs7_unpad (cbc_decrypt key (take 16 envelope) (drop 16 envelope)) with
       | Some plain => (inr plain, w)
       | None => (inl (CryptoError BadDecrypt), w)
       end
  else if length envelope <? 16 then (inl (CryptoError InvalidIV), w)
  else (inl (CryptoError WrongFinalBlockLength), w).
Proof.
  intros Hthis Hkey.
  destruct (Nat.leb_spec 32 (length envelope)) as [H32|H32];
    destruct (Nat.eqb_spec (length envelope mod 16) 0) as [Hmod|Hmod]; cbn [andb].
  - apply decryptBuffer_eq; assumption.
  - replace (length envelope <? 16) with false by (symmetry; apply Nat.ltb_ge; lia).
    apply (decryptBuffer_ragged this key); try assumption; [lia|].
    pose proof (Nat.div_mod_eq (length envelope) 16) as Hdiv.
    pose proof (Nat.mod_upper_bound (length envelope) 16 ltac:(lia)) as Hup.
    replace (length envelope - 16) with ((length envelope / 16 - 1) * 16 + length envelope mod 16)
      by lia.
    rewrite Nat.add_comm, Nat.Div0.mod_add, Nat.Div0.mod_mod. exact Hmod.
  - destruct (Nat.ltb_spec (length envelope) 16) as [H16|H16].
    + apply (decryptBuffer_short this key); assumption.
    + apply (decryptBuffer_bare_iv this key); try assumption.
      pose proof (Nat.div_mod_eq (length envelope) 16) as Hdiv.
      destruct (length envelope / 16) as [|[|q]]; lia.
  - destruct (Nat.ltb_spec (length envelope) 16) as [H16|H16].
    + apply (decryptBuffer_short this key); assumption.
    + apply (decryptBuffer_ragged this key); try assumption.
      pose proof (Nat.div_mod_eq (length envelope) 16) as Hdiv.
      pose proof (Nat.mod_upper_bound (length envelope) 16 ltac:(lia)) as Hup.
      assert (Hq : length envelope / 16 = 1) by lia.
      rewrite Hq in Hdiv.
      replace (length envelope - 16) with (length envelope mod 16) by lia.
      rewrite Nat.Div0.mod_mod. exact Hmod.
Qed.

Lemma decryptBuffer_returns_iff this key (envelope plain : Buffer) w w' :
  _key this = Some key -> length key = 32 ->
  decryptBuffer this envelope w = (inr plain, w') <->
  w' = w /\ 32 <= length envelope /\ length envelope mod 16 = 0 /\
  pkcs7_unpad (cbc_decrypt key (take 16 envelope) (drop 16 envelope)) = Some plain.
Proof.
  intros Hthis Hkey.
  rewrite (decryptBuffer_cases this key) by assumption.
  destruct (Nat.leb_spec 32 (length envelope)) as [H32|H32];
    destruct (Nat.eqb_spec (length envelope mod 16) 0) as [Hmod|Hmod]; cbn [andb].
  - destruct (pkcs7_unpad _) as [p|].
    + split.
      * intros H. injection H as <- <-. repeat split; assumption.
      * intros (-> & _ & _ & H). injection H as <-. reflexivity.
    + split; [discriminate | intros (_ & _ & _ & H); discriminate H].
  - split; [destruct (_ <? _); discriminate | intros (_ & _ & H & _); contradiction].
  - split; [destruct (_ <? _); discriminate | intros (_ & H & _); lia].
  - split; [destruct (_ <? _); discriminate | intros (_ & H & _); lia].
Qed.

(** X9.  With a 256-bit key set, [decryptBuffer] returns a plaintext exactly
    for the envelopes of at least 32 bytes, a multiple of 16, whose CBC
    decryption ends in valid padding, and what it returns is that decryption
    without its padding.  Whatever the instance and the input, it leaves the
    world as it was. *)
Theorem X9_decryptBuffer_returns_exactly this key (envelope plain : Buffer) w w' :
  _key this = Some key -> length key = 32 ->
  (decryptBuffer this envelope w = (inr plain, w') <->
   w' = w /\ 32 <= length envelope /\ length envelope mod 16 = 0 /\
   pkcs7_unpad (cbc_decrypt key (take 16 envelope) (drop 16 envelope)) = Some plain) /\
  (forall other input v, (decryptBuffer other input v).2 = v).
Proof.
  intros Hthis Hkey. split; [|intros; apply decryptBuffer_world].
  apply decryptBuffer_returns_iff; assumption.
Qed.

Lemma X9_witness :
  (decryptBuffer sample (replicate 32 x00) counting = (inr [], stuck) <->
   stuck = counting /\ 32 <= length (replicate 32 x00) /\
   length (replicate 32 x00) mod 16 = 0 /\
   pkcs7_unpad (cbc_decrypt sample_key (take 16 (replicate 32 x00))
                  (drop 16 (replicate 32 x00))) = Some []) /\
  (forall other input v, (decryptBuffer other input v).2 = v).
Proof.
  apply (X9_decryptBuffer_returns_exactly sample sample_key (replicate 32 x00) []
           counting stuck); reflexivity.
Defined.

(** ** AES-256: encrypting a block undoes decrypting it *)

Module AES_onto.
Import AES AES_facts.

Lemma sbox_inv_sbox (b : byte) : sbox (inv_sbox b) = b.
Proof. destruct b; reflexivity. Qed.

Lemma sub_bytes_inv_sub_bytes (s : Buffer) : sub_bytes (inv_sub_bytes s) = s.
Proof.
  unfold inv_sub_bytes, sub_bytes. induction s as [|b s IH]; [reflexivity|].
  cbn [map]. rewrite sbox_inv_sbox, IH. reflexivity.
Qed.

Lemma shift_rows_inv_shift_rows (s : Buffer) : shift_rows (inv_shift_rows s) = s.
Proof. do 17 (destruct s as [|? s]; [reflexivity|]). reflexivity. Qed.

Lemma mix_column_inv_mix_column (a0 a1 a2 a3 : byte) :
  match inv_mix_column a0 a1 a2 a3 with
  | [c0; c1; c2; c3] => mix_column c0 c1 c2 c3
  | _ => []
  end = [a0; a1; a2; a3].
Proof.
  to_bits a0. to_bits a1. to_bits a2. to_bits a3.
  cbv [mix_column inv_mix_column xor4 mul2 mul3 mul9 mul11 mul13 mul14 xtime byte_xor].
  rewrite !Byte.to_bits_of_bits.
  cbv [xor_bits xtime_bits].
  repeat (f_equal; try btauto).
Qed.

Lemma mix_columns_inv_mix_columns (s : Buffer) : mix_columns (inv_mix_columns s) = s.
Proof.
  do 16 (destruct s as [|? s]; [reflexivity|]).
  destruct s; [|reflexivity].
  pose proof (mix_column_inv_mix_column b b0 b1 b2) as H0.
  pose proof (mix_column_inv_mix_column b3 b4 b5 b6) as H1.
  pose proof (mix_column_inv_mix_column b7 b8 b9 b10) as H2.
  pose proof (mix_column_inv_mix_column b11 b12 b13 b14) as H3.
  cbn [mix_columns inv_mix_column app inv_mix_columns] in *.
  rewrite H0, H1, H2, H3. reflexivity.
Qed.

Lemma round_inv_round ws s r : length s = 16 -> round ws (inv_round ws s r) r = s.
Proof.
  intros H. unfold inv_round, round.
  rewrite sub_bytes_inv_sub_bytes, shift_rows_inv_shift_rows, mix_columns_inv_mix_columns.
  unfold add_round_key. apply xor_bytes_cancel. rewrite H. reflexivity.
Qed.

Lemma fold_round_inv_round ws rs s :
  length s = 16 ->
  fold_left (round ws) rs (fold_left (inv_round ws) (rev rs) s) = s.
Proof.
  revert s. induction rs as [|r rs IH]; intros s H; [reflexivity|].
  cbn [rev]. rewrite fold_left_app. cbn [fold_left].
  rewrite round_inv_round by (apply fold_inv_round_length, H).
  apply IH, H.
Qed.

Lemma encrypt_block_decrypt_block key block :
  length block = 16 -> encrypt_block key (decrypt_block key block) = block.
Proof.
  intros H. unfold decrypt_block, encrypt_block.
  set (ws := expand_key key).
  set (s14 := add_round_key block (round_key ws 14)).
  assert (H14 : length s14 = 16) by (apply add_round_key_length, H).
  set (s13 := inv_sub_bytes (inv_shift_rows s14)).
  assert (H13 : length s13 = 16).
  { unfold s13, inv_sub_bytes. rewrite length_map, inv_shift_rows_length. exact H14. }
  set (s0 := fold_left (inv_round ws) (rev (seq 1 13)) s13).
  assert (H0 : length s0 = 16) by (apply fold_inv_round_length, H13).
  unfold add_round_key at 2 3.
  rewrite xor_bytes_cancel by (rewrite H0; reflexivity).
  unfold s0. rewrite fold_round_inv_round by exact H13.
  unfold s13. rewrite sub_bytes_inv_sub_bytes, shift_rows_inv_shift_rows.
  unfold s14, add_round_key. apply xor_bytes_cancel. rewrite H. reflexivity.
Qed.

(** So no two blocks decrypt to the same block. *)
Lemma decrypt_block_injective key c c' :
  length c = 16 -> length c' = 16 ->
  decrypt_block key c = decrypt_block key c' -> c = c'.
Proof.
  intros H H' E.
  rewrite <- (encrypt_block_decrypt_block key c H), E.
  apply encrypt_block_decrypt_block, H'.
Qed.

End AES_onto.

(** ** Two envelopes with one plaintext *)

Lemma byte_xor_comm (a b : byte) : byte_xor a b = byte_xor b a.
Proof.
  unfold byte_xor. f_equal.
  destruct (Byte.to_bits a) as (a0 & a1 & a2 & a3 & a4 & a5 & a6 & a7).
  destruct (Byte.to_bits b) as (b0 & b1 & b2 & b3 & b4 & b5 & b6 & b7).
  cbn. rewrite (xorb_comm a0 b0), (xorb_comm a1 b1), (xorb_comm a2 b2), (xorb_comm a3 b3),
    (xorb_comm a4 b4), (xorb_comm a5 b5), (xorb_comm a6 b6), (xorb_comm a7 b7). reflexivity.
Qed.

Lemma xor_bytes_comm (a b : Buffer) : xor_bytes a b = xor_bytes b a.
Proof.
  revert b. induction a as [|x a IH]; intros [|y b]; try reflexivity.
  cbn. rewrite byte_xor_comm. f_equal. apply IH.
Qed.

Lemma xor_bytes_injective_l (a a' b : Buffer) :
  length a <= length b -> length a' <= length b ->
  xor_bytes a b = xor_bytes a' b -> a = a'.
Proof.
  intros H H' E.
  rewrite <- (xor_bytes_cancel a b H), E. apply xor_bytes_cancel, H'.
Qed.

Lemma xor_bytes_injective_r (a b b' : Buffer) :
  length b <= length a -> length b' <= length a ->
  xor_bytes a b = xor_bytes a b' -> b = b'.
Proof.
  intros H H'. rewrite (xor_bytes_comm a b), (xor_bytes_comm a b').
  apply xor_bytes_injective_l; assumption.
Qed.

Lemma decrypt_blocks_S n key chain data :
  crypto.decrypt_blocks (S n) key chain data =
  (xor_bytes (AES.decrypt_block key (take 16 data)) chain
     ++ (crypto.decrypt_blocks n key (take 16 data) (drop 16 data)).1,
   (crypto.decrypt_blocks n key (take 16 data) (drop 16 data)).2).
Proof.
  cbn [crypto.decrypt_blocks].
  destruct (crypto.decrypt_blocks n key (take 16 data) (drop 16 data)); reflexivity.
Qed.

Lemma decrypt_blocks_S_fst n key chain data :
  (crypto.decrypt_blocks (S n) key chain data).1 =
  xor_bytes (AES.decrypt_block key (take 16 data)) chain
     ++ (crypto.decrypt_blocks n key (take 16 data) (drop 16 data)).1.
Proof. rewrite decrypt_blocks_S. reflexivity. Qed.

Lemma first_block_apart key chain (c c' out out' : Buffer) :
  length chain = 16 -> length c = 16 -> length c' = 16 ->
  xor_bytes (AES.decrypt_block key c) chain ++ out
  = xor_bytes (AES.decrypt_block key c') chain ++ out' ->
  c = c' /\ out = out'.
Proof.
  intros Hchain Hc Hc' E.
  assert (Hx : length (xor_bytes (AES.decrypt_block key c) chain)
               = length (xor_bytes (AES.decrypt_block key c') chain)).
  { rewrite !xor_bytes_length, !AES_facts.decrypt_block_length by assumption. reflexivity. }
  destruct (app_inj_1 _ _ _ _ Hx E) as [Ep Eo]. split; [|exact Eo].
  apply xor_bytes_injective_l in Ep;
    [|rewrite AES_facts.decrypt_block_length by assumption; lia
     |rewrite AES_facts.decrypt_block_length by assumption; lia].
  apply AES_onto.decrypt_block_injective in Ep; assumption.
Qed.

(** Under one key and from one chaining block, CBC decryption of [n] blocks
    tells ciphertexts apart. *)
Lemma decrypt_blocks_injective n key chain data data' :
  length chain = 16 -> 16 * n <= length data -> 16 * n <= length data' ->
  (crypto.decrypt_blocks n key chain data).1 = (crypto.decrypt_blocks n key chain data').1 ->
  take (16 * n) data = take (16 * n) data'.
Proof.
  revert chain data data'.
  induction n as [|n IH]; intros chain data data' Hchain Hd Hd' E; [reflexivity|].
  rewrite !decrypt_blocks_S_fst in E.
  assert (Hc : length (take 16 data) = 16) by (rewrite length_take; lia).
  assert (Hc' : length (take 16 data') = 16) by (rewrite length_take; lia).
  destruct (first_block_apart _ _ _ _ _ _ Hchain Hc Hc' E) as [Ep Eo].
  rewrite <- Ep in Eo.
  assert (Erest : take (16 * n) (drop 16 data) = take (16 * n) (drop 16 data')).
  { apply (IH (take 16 data) (drop 16 data) (drop 16 data') Hc);
      [rewrite length_drop; lia | rewrite length_drop; lia | exact Eo]. }
  replace (16 * S n) with (16 + 16 * n) by lia.
  rewrite <- (take_take_drop data 16 (16 * n)), <- (take_take_drop data' 16 (16 * n)).
  rewrite Ep, Erest. reflexivity.
Qed.

(** And with one ciphertext of at least a block, it tells IVs apart. *)
Lemma decrypt_blocks_injective_iv n key iv iv' data :
  length iv = 16 -> length iv' = 16 -> 16 * S n <= length data ->
  (crypto.decrypt_blocks (S n) key iv data).1 = (crypto.decrypt_blocks (S n) key iv' data).1 ->
  iv = iv'.
Proof.
  intros Hiv Hiv' Hd E. rewrite !decrypt_blocks_S_fst in E.
  assert (Hc : length (take 16 data) = 16) by (rewrite length_take; lia).
  apply app_inv_tail in E.
  apply xor_bytes_injective_r in E;
    [exact E | rewrite AES_facts.decrypt_block_length by assumption; lia
     | rewrite AES_facts.decrypt_block_length by assumption; lia].
Qed.

(** What [pkcs7_unpad] accepts is its result followed by the padding. *)
Lemma pkcs7_unpad_Some (data plain : Buffer) :
  pkcs7_unpad data = Some plain ->
  exists n, 1 <= n <= 16 /\ data = plain ++ replicate n (byte_of_nat n).
Proof.
  unfold pkcs7_unpad. set (n := Byte.to_nat (List.last data x00)).
  destruct (n =? 0) eqn:E0; [discriminate|].
  destruct (16 <? n) eqn:E16; [discriminate|].
  destruct (length data <? n) eqn:El; [discriminate|].
  cbn [orb]. destruct (forallb _ _) eqn:Ef; [|discriminate].
  intros H. injection H as <-.
  apply Nat.eqb_neq in E0. apply Nat.ltb_ge in E16. apply Nat.ltb_ge in El.
  exists n. split; [lia|].
  apply forallb_eqb_inv in Ef. rewrite length_drop in Ef.
  replace (length data - (length data - n)) with n in Ef by lia.
  rewrite <- Ef. symmetry. apply take_drop.
Qed.

Lemma pkcs7_unpad_injective (data data' plain : Buffer) :
  length data mod 16 = 0 -> length data' mod 16 = 0 ->
  pkcs7_unpad data = Some plain -> pkcs7_unpad data' = Some plain -> data = data'.
Proof.
  intros Hm Hm' H H'.
  apply pkcs7_unpad_Some in H as (n & Hn & ->).
  apply pkcs7_unpad_Some in H' as (n' & Hn' & ->).
  rewrite length_app, length_replicate in Hm, Hm'.
  assert (n = n'); [|subst; reflexivity].
  pose proof (Nat.div_mod_eq (length plain + n) 16) as Hd.
  pose proof (Nat.div_mod_eq (length plain + n') 16) as Hd'.
  rewrite Hm in Hd. rewrite Hm' in Hd'.
  remember ((length plain + n) / 16) as q eqn:Eq. remember ((length plain + n') / 16) as q' eqn:Eq'.
  clear Eq Eq' Hm Hm'. lia.
Qed.

(** X10.  Tampering shows.  Under one 256-bit key, two envelopes that
    [decryptBuffer] turns into the same plaintext and that have the same IV,
    or the same ciphertext after the IV, are the same envelope: changing only
    the ciphertext of an envelope, or only its IV, makes [decryptBuffer]
    throw or return another plaintext. *)
Theorem X10_tampering_shows this key (e e' plain : Buffer) w w' :
  _key this = Some key -> length key = 32 ->
  decryptBuffer this e w = (inr plain, w) ->
  decryptBuffer this e' w' = (inr plain, w') ->
  take 16 e = take 16 e' \/ drop 16 e = drop 16 e' ->
  e = e'.
Proof.
  intros Hthis Hkey D D' Hsame.
  apply (decryptBuffer_returns_iff this key) in D as (_ & H32 & Hmod & Hun); try assumption.
  apply (decryptBuffer_returns_iff this key) in D' as (_ & H32' & Hmod' & Hun'); try assumption.
  assert (Hiv : length (take 16 e) = 16) by (rewrite length_take; lia).
  assert (Hiv' : length (take 16 e') = 16) by (rewrite length_take; lia).
  assert (Hct : length (drop 16 e) mod 16 = 0).
  { rewrite length_drop. pose proof (Nat.div_mod_eq (length e) 16) as Hd.
    replace (length e - 16) with ((length e / 16 - 1) * 16) by lia. apply Nat.Div0.mod_mul. }
  assert (Hct' : length (drop 16 e') mod 16 = 0).
  { rewrite length_drop. pose proof (Nat.div_mod_eq (length e') 16) as Hd.
    replace (length e' - 16) with ((length e' / 16 - 1) * 16) by lia. apply Nat.Div0.mod_mul. }
  assert (Hx : cbc_decrypt key (take 16 e) (drop 16 e) = cbc_decrypt key (take 16 e') (drop 16 e')).
  { apply (pkcs7_unpad_injective _ _ plain); try assumption;
      rewrite cbc_decrypt_length by assumption; assumption. }
  assert (Hlen : length (drop 16 e) = length (drop 16 e')).
  { rewrite <- (cbc_decrypt_length key (take 16 e) (drop 16 e)) by assumption.
    rewrite <- (cbc_decrypt_length key (take 16 e') (drop 16 e')) by assumption.
    rewrite Hx. reflexivity. }
  unfold cbc_decrypt in Hx. rewrite <- Hlen in Hx.
  pose proof (Nat.div_mod_eq (length (drop 16 e)) 16) as Hdiv.
  assert (Hpos : 16 <= length (drop 16 e)) by (rewrite length_drop; lia).
  remember (length (drop 16 e) / 16) as n eqn:En. clear En.
  rewrite <- (take_drop 16 e), <- (take_drop 16 e').
  destruct Hsame as [Eiv|Ect].
  - rewrite <- Eiv in Hx |- *. f_equal.
    apply decrypt_blocks_injective in Hx; [|assumption|lia|lia].
    rewrite !take_ge in Hx by lia. exact Hx.
  - rewrite <- Ect in Hx |- *. f_equal.
    destruct n as [|m]; [lia|].
    apply decrypt_blocks_injective_iv in Hx; [exact Hx|assumption|assumption|lia].
Qed.

Lemma X10_witness :
  next_iv counting ++ cbc_encrypt sample_key (next_iv counting) (pkcs7_pad sample_block)
  = next_iv counting ++ cbc_encrypt sample_key (next_iv counting) (pkcs7_pad sample_block).
Proof.
  apply (X10_tampering_shows sample sample_key _ _ sample_block stuck counting);
    [reflexivity | reflexivity
    | apply decryptBuffer_of_envelope; reflexivity
    | apply decryptBuffer_of_envelope; reflexivity
    | left; reflexivity].
Defined.

(** ** Files *)


Lemma encryptBuffer_no_key this (b : Buffer) w :
  _key this = None -> encryptBuffer this b w = (inl (Error "Key is not set."), w).
Proof. intros H. unfold encryptBuffer. rewrite H. reflexivity. Qed.

Lemma decryptBuffer_no_key this (b : Buffer) w :
  _key this = None -> decryptBuffer this b w = (inl (Error "Key is not set."), w).
Proof. intros H. unfold decryptBuffer. rewrite H. reflexivity. Qed.

(** X11.  With a 256-bit key set and a path at which a file can be,
    [saveBufferToFile] creates or replaces that file with an envelope of the
    buffer and writes nothing to the console.  [loadBufferFromFile] then
    returns the buffer, through the same path and through every other path
    to that file; a path to another file reads what it read before. *)
Theorem X11_save_then_load_buffer this key (filename file : string) (b : Buffer) w :
  _key this = Some key -> length key = 32 ->
  locate (files w) filename = Some file ->
  exists envelope w',
    saveBufferToFile this filename b w = (inr tt, w') /\
    files w' = <[filename := envelope]> (files w) /\
    length envelope = 16 + 16 * (length b / 16 + 1) /\
    console w' = console w /\
    (forall other, locate (files w) other <> Some file ->
       files w' !! other = files w !! other) /\
    (forall alias, locate (files w) alias = Some file ->
       loadBufferFromFile this alias w' = (inr b, w')).
Proof.
  intros Hthis Hkey Hfile.
  exists (next_iv w ++ cbc_encrypt key (next_iv w) (pkcs7_pad b)).
  eexists. unfold saveBufferToFile, loadBufferFromFile, try_catch, mbind, M_bind.
  rewrite (encryptBuffer_eq this key) by assumption.
  unfold fs.writeFileSync, advance. cbn [files]. rewrite Hfile.
  split; [reflexivity|]. cbn [files console].
  split; [reflexivity|]. split; [apply envelope_length|]. split; [reflexivity|].
  split; [intros other Hne; apply (lookup_written_other _ _ _ file); assumption|].
  intros alias Halias.
  unfold fs.readFileSync. cbn [files].
  rewrite (lookup_written _ _ _ _ _ Hfile Halias).
  rewrite (decryptBuffer_of_envelope this key) by assumption. reflexivity.
Qed.

Lemma X11_witness :
  exists envelope w',
    saveBufferToFile sample "./enc" sample_block counting = (inr tt, w') /\
    files w' = <["./enc" := envelope]> (files counting) /\
    length envelope = 16 + 16 * (length sample_block / 16 + 1) /\
    console w' = console counting /\
    (forall other, locate (files counting) other <> Some "enc" ->
       files w' !! other = files counting !! other) /\
    (forall alias, locate (files counting) alias = Some "enc" ->
       loadBufferFromFile sample alias w' = (inr sample_block, w')).
Proof.
  apply (X11_save_then_load_buffer sample sample_key "./enc" "enc" sample_block counting);
    reflexivity.
Defined.



(** ** Base64 text *)

Lemma char_of_sextet_in_alphabet (n : N) :
  (n < 64)%N -> In (Buffer.char_of_sextet n) Buffer.base64_alphabet.
Proof.
  intros Hn. unfold Buffer.char_of_sextet. apply nth_In.
  change (length Buffer.base64_alphabet) with 64. lia.
Qed.

Lemma toString_base64_chars (buf : Buffer) :
  Forall is_base64_char (Buffer.toString_base64 buf).
Proof.
  assert (Hc : forall n, (n < 64)%N -> is_base64_char (Buffer.char_of_sextet n))
    by (intros n Hn; left; apply char_of_sextet_in_alphabet, Hn).
  assert (He : is_base64_char Buffer.equals_sign) by (right; reflexivity).
  induction buf as [|b0|b0 b1|b0 b1 b2 rest IH] using list_ind3.
  - constructor.
  - cbn [Buffer.toString_base64]. cbv zeta.
    pose proof (Byte.to_N_bounded b0) as H0.
    generalize dependent (Byte.to_N b0). intros n0 H0.
    constructor; [apply Hc; div_lia|].
    constructor; [apply Hc; div_lia|].
    constructor; [exact He|]. constructor; [exact He|]. constructor.
  - cbn [Buffer.toString_base64]. cbv zeta.
    pose proof (Byte.to_N_bounded b0) as H0. pose proof (Byte.to_N_bounded b1) as H1.
    generalize dependent (Byte.to_N b0). generalize dependent (Byte.to_N b1).
    intros n1 H1 n0 H0.
    constructor; [apply Hc; div_lia|].
    constructor; [apply Hc; div_lia|].
    constructor; [apply Hc; div_lia|].
    constructor; [exact He|]. constructor.
  - cbn [Buffer.toString_base64 app]. cbv zeta.
    pose proof (Byte.to_N_bounded b0) as H0. pose proof (Byte.to_N_bounded b1) as H1.
    pose proof (Byte.to_N_bounded b2) as H2.
    generalize dependent (Byte.to_N b0). generalize dependent (Byte.to_N b1).
    generalize dependent (Byte.to_N b2).
    intros n2 H2 n1 H1 n0 H0.
    constructor; [apply Hc; div_lia|].
    constructor; [apply Hc; div_lia|].
    constructor; [apply Hc; div_lia|].
    constructor; [apply Hc; div_lia|].
    exact IH.
Qed.

Lemma toString_base64_length (buf : Buffer) :
  length (Buffer.toString_base64 buf) = 4 * ((length buf + 2) / 3).
Proof.
  induction buf as [|b0|b0 b1|b0 b1 b2 rest IH] using list_ind3; try reflexivity.
  cbn [Buffer.toString_base64 app length]. rewrite IH.
  replace (S (S (S (length rest))) + 2) with (length rest + 2 + 1 * 3) by lia.
  rewrite Nat.div_add by lia. lia.
Qed.

Lemma is_base64_char_ascii (c : N) : is_base64_char c -> (c < 128)%N.
Proof.
  intros [Hin| ->]; [|reflexivity].
  assert (Hall : forallb (fun c => (c <? 128)%N) Buffer.base64_alphabet = true)
    by (vm_compute; reflexivity).
  rewrite forallb_forall in Hall. apply N.ltb_lt, Hall, Hin.
Qed.

Lemma toString_base64_ascii (buf : Buffer) :
  Forall (fun c => (c < 128)%N) (Buffer.toString_base64 buf).
Proof.
  eapply Forall_impl; [apply toString_base64_chars|].
  intros c. apply is_base64_char_ascii.
Qed.

(** ** The platform [literals] gives back ASCII text *)

Lemma to_N_byte_of_N (n : N) : (n < 256)%N -> Byte.to_N (byte_of_N n) = n.
Proof.
  intros Hn. unfold byte_of_N. rewrite N.mod_small by exact Hn.
  destruct (Byte.of_N n) as [b|] eqn:E.
  - apply Byte.to_of_N in E. exact E.
  - apply Byte.of_N_None_iff in E. lia.
Qed.

Lemma literals_utf8_keeps_ascii : utf8_keeps_ascii (P := literals).
Proof.
  intros text Hascii. cbn [utf8_decode literals].
  induction Hascii as [|u rest Hu _ IH]; [reflexivity|].
  cbn [Buffer.from_utf8].
  unfold Buffer.is_high_surrogate, Buffer.is_low_surrogate.
  replace (0xD800 <=? u)%N with false by (symmetry; apply N.leb_gt; lia).
  replace (0xDC00 <=? u)%N with false by (symmetry; apply N.leb_gt; lia).
  cbn [andb]. unfold Buffer.utf8_of_code_point.
  replace (u <? 0x80)%N with true by (symmetry; apply N.ltb_lt; lia).
  cbn [app]. unfold ascii_decode in *. cbn [map].
  rewrite to_N_byte_of_N by lia.
  replace (u <? 128)%N with true by (symmetry; apply N.ltb_lt; lia).
  rewrite IH. reflexivity.
Qed.

(** ** JSON *)

Section JSON.
Context `{P : Platform}.

(** The text [encryptJSON] returns: the Base64 of the envelope of the UTF-8
    bytes of the JSON text. *)
Lemma encryptJSON_eq this key (v : JSONValue) w :
  _key this = Some key -> length key = 32 ->
  encryptJSON this v w =
  (inr (Buffer.toString_base64
          (next_iv w ++ cbc_encrypt key (next_iv w)
                          (pkcs7_pad (Buffer.from_utf8 (JSON_stringify v))))),
   advance 16 w).
Proof.
  intros Hthis Hkey. unfold encryptJSON. rewrite Hthis.
  unfold mbind, M_bind. rewrite (encryptBuffer_eq this key) by assumption. reflexivity.
Qed.

Lemma decryptJSON_of_text this key (v : JSONValue) w w1 :
  json_text_survives_utf8 ->
  _key this = Some key -> length key = 32 ->
  decryptJSON this
    (Buffer.toString_base64
       (next_iv w ++ cbc_encrypt key (next_iv w)
                       (pkcs7_pad (Buffer.from_utf8 (JSON_stringify v))))) w1
  = match JSON_parse (JSON_stringify v) with
    | Some v' => (inr v', w1)
    | None => (inl SyntaxError, w1)
    end.
Proof.
  intros Hutf8 Hthis Hkey. unfold decryptJSON. rewrite Hthis.
  unfold mbind, M_bind. rewrite from_base64_toString_base64.
  rewrite (decryptBuffer_of_envelope this key) by assumption.
  rewrite Hutf8. destruct (JSON_parse (JSON_stringify v)); reflexivity.
Qed.



End JSON.

(** X14.  On an instance without a key the four file members do not throw
    "Key is not set.": each throws its own "Failed to ..." error, an I/O
    error, and writes no file.  The missing key is named on the console
    only, and by [loadBufferFromFile] and [loadJSONFromFile] only when the
    file is there. *)
Theorem X14_no_key_at_the_files `{P : Platform} this (filename : string)
    (b : Buffer) (v : JSONValue) w :
  _key this = None ->
  saveBufferToFile this filename b w
    = (inl (Error "Failed to save buffer to file."),
       logged "Failed to save buffer to file:" (Error "Key is not set.") w) /\
  saveJSONToFile this filename v w
    = (inl (Error "Failed to save JSON to file."),
       logged "Failed to save JSON to file:" (Error "Key is not set.") w) /\
  (exists cause,
     loadBufferFromFile this filename w
       = (inl (Error "Failed to load buffer from file."),
          logged "Failed to load buffer from file:" cause w) /\
     cause = match files w !! filename with
             | Some _ => Error "Key is not set."
             | None => FsError (ENOENT filename)
             end) /\
  (exists cause,
     loadJSONFromFile this filename w
       = (inl (Error "Failed to load JSON from file."),
          logged "Failed to load JSON from file:" cause w) /\
     cause = match files w !! filename with
             | Some _ => Error "Key is not set."
             | None => FsError (ENOENT filename)
             end) /\
  classify (Error "Failed to save buffer to file.") = Some IOError /\
  classify (Error "Failed to save JSON to file.") = Some IOError /\
  classify (Error "Failed to load buffer from file.") = Some IOError /\
  classify (Error "Failed to load JSON from file.") = Some IOError.
Proof.
  intros Hthis.
  split; [|split; [|split; [|split; [|repeat split]]]].
  - unfold saveBufferToFile, try_catch, mbind, M_bind.
    rewrite encryptBuffer_no_key by exact Hthis. reflexivity.
  - unfold saveJSONToFile, try_catch, mbind, M_bind, encryptJSON. rewrite Hthis. reflexivity.
  - unfold loadBufferFromFile, try_catch, mbind, M_bind, fs.readFileSync.
    destruct (files w !! filename) as [content|].
    + rewrite decryptBuffer_no_key by exact Hthis. eexists. split; reflexivity.
    + eexists. split; reflexivity.
  - unfold loadJSONFromFile, try_catch, mbind, M_bind, fs.readFileSync.
    destruct (files w !! filename) as [content|].
    + unfold decryptJSON. rewrite Hthis. eexists. split; reflexivity.
    + eexists. split; reflexivity.
Qed.

Lemma X14_witness :
  saveBufferToFile constructor "enc" sample_block counting
    = (inl (Error "Failed to save buffer to file."),
       logged "Failed to save buffer to file:" (Error "Key is not set.") counting) /\
  @saveJSONToFile literals constructor "enc" (Some true) counting
    = (inl (Error "Failed to save JSON to file."),
       logged "Failed to save JSON to file:" (Error "Key is not set.") counting) /\
  (exists cause,
     loadBufferFromFile constructor "enc" counting
       = (inl (Error "Failed to load buffer from file."),
          logged "Failed to load buffer from file:" cause counting) /\
     cause = match files counting !! "enc" with
             | Some _ => Error "Key is not set."
             | None => FsError (ENOENT "enc")
             end) /\
  (exists cause,
     @loadJSONFromFile literals constructor "enc" counting
       = (inl (Error "Failed to load JSON from file."),
          logged "Failed to load JSON from file:" cause counting) /\
     cause = match files counting !! "enc" with
             | Some _ => Error "Key is not set."
             | None => FsError (ENOENT "enc")
             end) /\
  classify (Error "Failed to save buffer to file.") = Some IOError /\
  classify (Error "Failed to save JSON to file.") = Some IOError /\
  classify (Error "Failed to load buffer from file.") = Some IOError /\
  classify (Error "Failed to load JSON from file.") = Some IOError.
Proof.
  apply (X14_no_key_at_the_files (P := literals) constructor "enc" sample_block (Some true)
           counting).
  reflexivity.
Defined.

(** X15.  With a 256-bit key set, what [encryptJSON] returns is Base64 text:
    every character is one of the 64 of the alphabet or [=], and there are
    four of them for every three bytes of the envelope, begun or whole.
    Decoded, it is the envelope of the UTF-8 bytes of the JSON text.  Only
    the random source moves, by 16 bytes. *)
Theorem X15_encryptJSON_text `{P : Platform} this key (v : JSONValue) w :
  _key this = Some key -> length key = 32 ->
  exists text envelope,
    encryptJSON this v w = (inr text, advance 16 w) /\
    encryptBuffer this (Buffer.from_utf8 (JSON_stringify v)) w = (inr envelope, advance 16 w) /\
    Buffer.from_base64 text = envelope /\
    Forall is_base64_char text /\
    length text = 4 * ((length envelope + 2) / 3).
Proof.
  intros Hthis Hkey. eexists _, _.
  split; [apply (encryptJSON_eq this key); assumption|].
  split; [apply (encryptBuffer_eq this key); assumption|].
  split; [apply from_base64_toString_base64|].
  split; [apply toString_base64_chars | apply toString_base64_length].
Qed.

Lemma X15_witness :
  exists text envelope,
    @encryptJSON literals sample (Some true) counting = (inr text, advance 16 counting) /\
    encryptBuffer sample (Buffer.from_utf8 (@JSON_stringify literals (Some true))) counting
      = (inr envelope, advance 16 counting) /\
    Buffer.from_base64 text = envelope /\
    Forall is_base64_char text /\
    length text = 4 * ((length envelope + 2) / 3).
Proof.
  apply (X15_encryptJSON_text (P := literals) sample sample_key (Some true) counting);
    reflexivity.
Defined.

(** X16.  With a 256-bit key set, a path at which a file can be, and a
    platform whose UTF-8 decoding gives back JSON text and ASCII text,
    [saveJSONToFile] writes the Base64 text of [encryptJSON] to that file,
    and [loadJSONFromFile] then gives what [JSON.parse] makes of the JSON
    text of the value: it returns what [JSON.parse] returns, so the value
    itself where [JSON.parse] turns its JSON text back into it, and throws
    "Failed to load JSON from file." where [JSON.parse] throws. *)
Theorem X16_save_then_load_JSON `{P : Platform} this key (filename file : string)
    (v : JSONValue) w :
  json_text_survives_utf8 -> utf8_keeps_ascii ->
  _key this = Some key -> length key = 32 ->
  locate (files w) filename = Some file ->
  exists text w',
    encryptJSON this v w = (inr text, advance 16 w) /\
    saveJSONToFile this filename v w = (inr tt, w') /\
    files w' = <[filename := Buffer.from_utf8 text]> (files w) /\
    console w' = console w /\
    loadJSONFromFile this filename w'
      = match JSON_parse (JSON_stringify v) with
        | Some v' => (inr v', w')
        | None => (inl (Error "Failed to load JSON from file."),
                   logged "Failed to load JSON from file:" SyntaxError w')
        end /\
    (JSON_parse (JSON_stringify v) = Some v ->
     loadJSONFromFile this filename w' = (inr v, w')).
Proof.
  intros Hutf8 Hascii Hthis Hkey Hfile. eexists _, _.
  split; [apply (encryptJSON_eq this key); assumption|].
  unfold saveJSONToFile, loadJSONFromFile, try_catch, mbind, M_bind.
  rewrite (encryptJSON_eq this key) by assumption.
  unfold fs.writeFileSync, advance. cbn [files]. rewrite Hfile.
  split; [reflexivity|]. cbn [files console].
  split; [reflexivity|]. split; [reflexivity|].
  unfold fs.readFileSync. cbn [files].
  rewrite (lookup_written _ _ _ _ _ Hfile Hfile).
  rewrite Hascii by apply toString_base64_ascii.
  rewrite (decryptJSON_of_text this key) by assumption.
  split.
  - destruct (JSON_parse (JSON_stringify v)); reflexivity.
  - intros ->. reflexivity.
Qed.

Lemma X16_witness :
  exists text w',
    @encryptJSON literals sample (Some true) counting = (inr text, advance 16 counting) /\
    @saveJSONToFile literals sample "./user" (Some true) counting = (inr tt, w') /\
    files w' = <["./user" := Buffer.from_utf8 text]> (files counting) /\
    console w' = console counting /\
    @loadJSONFromFile literals sample "./user" w' = (inr (Some true), w').
Proof.
  destruct (X16_save_then_load_JSON (P := literals) sample sample_key "./user" "user"
              (Some true) counting literals_json_text_survives_utf8
              literals_utf8_keeps_ascii eq_refl eq_refl eq_refl)
    as (text & w' & He & Hs & Hf & Hc & _ & Hv).
  exists text, w'. repeat (split; [assumption|]). apply Hv. reflexivity.
Defined.




